(** * WNTR: water-security metrics and the temporal signal model

    A shallow embedding of [wntr/metrics/water_security.py] and of the
    [Pattern] / [TimeSeries] / [Demands] classes exercised by
    [wntr/network/tests/test_elements.py].

    Numbers.  The tables hold finite measurements (flows, concentrations,
    lengths, seconds).  They are embedded as rationals [Q] with exact
    arithmetic; equalities between computed values are stated with [==]
    ([Qeq]).  Rounding, infinities and NaN of the binary floating-point
    representation are outside this embedding.

    Errors.  A Python exception (a [KeyError] of a label lookup, an
    [IndexError], a shape mismatch of a positional operation) is the
    result [None]. *)

From Stdlib Require Import QArith Qminmax Qround Lqa.
From stdpp Require Import base option list gmap strings.

Local Open Scope string_scope.

(** ** numpy scalars *)

Module np.

(** [np.greater(x, y)], also written [x > y]. *)
Definition greater (x y : Q) : bool := negb (Qle_bool x y).

(** [x < y] on scalars. *)
Definition less (x y : Q) : bool := greater y x.

(** [np.sign]. *)
Definition sign (x : Q) : Q :=
  match (x ?= 0)%Q with
  | Lt => (-1)%Q
  | Eq => 0%Q
  | Gt => 1%Q
  end.

(** A boolean used as a factor of a product: [True] is 1, [False] is 0. *)
Definition of_bool (b : bool) : Q := if b then 1%Q else 0%Q.

(** [sum] of a one-dimensional array. *)
Definition sum (xs : list Q) : Q := foldr Qplus 0%Q xs.

End np.

(** ** pandas tables *)

(** A [DataFrame]: the row labels (times, in seconds), the column labels
    (node or link names) and the cells, row by row. *)
Record DataFrame (A : Type) := mkFrame {
  index : list Q;
  columns : list string;
  values : list (list A)
}.
Arguments mkFrame {A} _ _ _.
Arguments index {A} _.
Arguments columns {A} _.
Arguments values {A} _.

(** A [Series] indexed by time: the result of [DataFrame.sum(axis=1)]. *)
Record Series := mkSeries {
  s_index : list Q;
  s_values : list Q
}.

(** A [Panel] of node results: items axis = attributes, major axis = times,
    minor axis = node names.  Every item shares the two other axes. *)
Record Panel := mkPanel {
  major_axis : list Q;
  minor_axis : list string;
  items : gmap string (list (list Q))
}.

(** pandas only builds rectangular frames: one row per index entry, one cell
    per column in every row. *)
Definition wf_frame {A} (df : DataFrame A) : Prop :=
  length (values df) = length (index df) ∧
  Forall (λ row, length row = length (columns df)) (values df).

Definition wf_panel (p : Panel) : Prop :=
  map_Forall (λ _ vals,
    length vals = length (major_axis p) ∧
    Forall (λ row : list Q, length row = length (minor_axis p)) vals) (items p).

(** The row lengths of a two-dimensional array; [(T, M)] for a rectangular
    one is [T] copies of [M]. *)
Definition shape {A} (m : list (list A)) : list nat := length <$> m.

(** [df.iat[i, k]]: the cell at row position [i], column position [k]. *)
Definition iat {A} (df : DataFrame A) (i k : nat) : option A :=
  values df !! i ≫= (.!! k).

(** Position of a column label. *)
Definition get_loc {A} (df : DataFrame A) (label : string) : option nat :=
  fst <$> list_find (λ c, c = label) (columns df).

(** The cell at row position [i] of the column labelled [label]. *)
Definition cell {A} (df : DataFrame A) (i : nat) (label : string) : option A :=
  get_loc df label ≫= iat df i.

(** [df.loc[:, labels]]: the columns named by [labels], in that order; a
    label that is not a column raises [KeyError]. *)
Definition loc_columns {A} (df : DataFrame A) (labels : list string)
  : option (DataFrame A) :=
  ps ← mapM (get_loc df) labels;
  rows ← mapM (λ row : list A, mapM (row !!.) ps) (values df);
  Some (mkFrame (index df) labels rows).

(** [panel[key]]: one attribute of a panel as a frame. *)
Definition panel_getitem (p : Panel) (key : string) : option (DataFrame Q) :=
  vals ← items p !! key;
  Some (mkFrame (major_axis p) (minor_axis p) vals).

(** An elementwise function of one frame ([df > c], [df * c], [np.sign(df)]). *)
Definition df_map {A B} (f : A → B) (df : DataFrame A) : DataFrame B :=
  mkFrame (index df) (columns df) (map (map f) (values df)).

(** An elementwise operation of two frames that carry the same axes (two
    items of one panel, or two frames derived from the same frame), for which
    the label alignment of pandas is the identity. *)
Definition df_zip {A B C} (f : A → B → C) (a : DataFrame A) (b : DataFrame B)
  : DataFrame C :=
  mkFrame (index a) (columns a) (zip_with (zip_with f) (values a) (values b)).

(** An elementwise operation of a frame and a bare array ([np.array(...)]):
    positional, and the two shapes have to agree. *)
Definition df_zip_array {A B C} (f : A → B → C) (a : DataFrame A)
    (b : list (list B)) : option (DataFrame C) :=
  if decide (shape (values a) = shape b)
  then Some (mkFrame (index a) (columns a) (zip_with (zip_with f) (values a) b))
  else None.

(** [df * s] for a boolean frame and a series labelled like the columns of
    the frame: each column is scaled by the entry of [s] under its label.
    A column without an entry would become NaN, which is not modelled. *)
Definition df_mul_series (df : DataFrame bool) (s : gmap string Q)
  : option (DataFrame Q) :=
  factors ← mapM (s !!.) (columns df);
  Some (mkFrame (index df) (columns df)
          ((λ row, zip_with (λ b l, (np.of_bool b * l)%Q) row factors) <$> values df)).

(** [cummax] down the rows: the running maximum of every column. *)
Fixpoint cummax_from (acc : list Q) (rows : list (list Q)) : list (list Q) :=
  match rows with
  | [] => []
  | row :: rest =>
      let acc' := zip_with Qmax acc row in
      acc' :: cummax_from acc' rest
  end.

Definition cummax (rows : list (list Q)) : list (list Q) :=
  match rows with
  | [] => []
  | row :: rest => row :: cummax_from row rest
  end.

Definition df_cummax (df : DataFrame Q) : DataFrame Q :=
  mkFrame (index df) (columns df) (cummax (values df)).

(** [df.sum(axis=1)]: the sum of every row. *)
Definition sum_axis1 (df : DataFrame Q) : Series :=
  mkSeries (index df) (np.sum <$> values df).

(** ** wntr.metrics.water_security *)

(** [mass_contaminant_consumed], lines 26-30. *)
Definition mass_contaminant_consumed (node_results : Panel)
  : option (DataFrame Q) :=
  demand ← panel_getitem node_results "demand";
  let maskD := df_map (λ d, np.greater d 0) demand in
  quality ← panel_getitem node_results "quality";
  deltaT ← index quality !! 1%nat;
  let MC :=
    df_zip (λ x b, (x * np.of_bool b)%Q)
      (df_zip Qmult (df_map (λ d, (d * deltaT)%Q) demand) quality) maskD in
  Some MC.

(** [volume_contaminant_consumed], lines 50-55. *)
Definition volume_contaminant_consumed (node_results : Panel)
    (detection_limit : Q) : option (DataFrame Q) :=
  quality ← panel_getitem node_results "quality";
  let maskQ := df_map (λ q, np.greater q detection_limit) quality in
  demand ← panel_getitem node_results "demand";
  let maskD := df_map (λ d, np.greater d 0) demand in
  deltaT ← index quality !! 1%nat;
  let VC :=
    df_zip (λ x b, (x * np.of_bool b)%Q)
      (df_zip (λ x b, (x * np.of_bool b)%Q)
         (df_map (λ d, (d * deltaT)%Q) demand) maskQ) maskD in
  Some VC.

(** The marking table of [extent_contamination_indirect], lines 127-131. *)
Definition link_contam_indirect (node_quality flow_rate : DataFrame Q)
    (link_names link_start_node link_end_node : list string)
    (detection_limit : Q) : option (DataFrame bool) :=
  flow_dir ← df_map np.sign <$> loc_columns flow_rate link_names;
  let node_contam := df_map (λ q, np.greater q detection_limit) node_quality in
  pos_flow ← values <$> loc_columns node_contam link_start_node;
  neg_flow ← values <$> loc_columns node_contam link_end_node;
  downstream ← df_zip_array andb (df_map (λ d, np.greater d 0) flow_dir) pos_flow;
  upstream ← df_zip_array andb (df_map (λ d, np.less d 0) flow_dir) neg_flow;
  Some (df_zip orb downstream upstream).

(** [extent_contamination_indirect], lines 127-135. *)
Definition extent_contamination_indirect (node_quality flow_rate : DataFrame Q)
    (link_names link_start_node link_end_node : list string)
    (link_length : gmap string Q) (detection_limit : Q) : option Series :=
  link_contam ← link_contam_indirect node_quality flow_rate
                   link_names link_start_node link_end_node detection_limit;
  contam_len ← df_cummax <$> df_mul_series link_contam link_length;
  let ec := sum_axis1 contam_len in
  Some ec.

(** The marking table of [extent_contamination_direct], line 191. *)
Definition link_contam_direct (link_quality : DataFrame Q)
    (detection_limit : Q) : DataFrame bool :=
  df_map (λ q, np.greater q detection_limit) link_quality.

(** [extent_contamination_direct], lines 191-194. *)
Definition extent_contamination_direct (link_quality : DataFrame Q)
    (link_length : gmap string Q) (detection_limit : Q) : option Series :=
  let link_contam := link_contam_direct link_quality detection_limit in
  contam_len ← df_cummax <$> df_mul_series link_contam link_length;
  let ec := sum_axis1 contam_len in
  Some ec.

(** ** Auxiliary notions of the statements *)

(** The mark of one link at one step as line 131 computes it from the flow
    of the link and the qualities at its two end nodes. *)
Definition link_mark (detection_limit f qs qe : Q) : bool :=
  np.greater (np.sign f) 0 && np.greater qs detection_limit
  || np.less (np.sign f) 0 && np.greater qe detection_limit.

(** A row of marks scaled by the link lengths, as [link_contam * link_length]
    scales every row. *)
Definition scale (factors : list Q) (brow : list bool) : list Q :=
  zip_with (λ b l, (np.of_bool b * l)%Q) brow factors.

(** The running disjunction down the rows of a table of marks. *)
Fixpoint cumor_from (acc : list bool) (brows : list (list bool))
  : list (list bool) :=
  match brows with
  | [] => []
  | brow :: rest =>
      let acc' := zip_with orb acc brow in
      acc' :: cumor_from acc' rest
  end.

Definition cumor (brows : list (list bool)) : list (list bool) :=
  match brows with
  | [] => []
  | brow :: rest => brow :: cumor_from brow rest
  end.

(** A link is marked at step [i] when it is marked at step [i - 1] or
    contaminated at step [i]. *)
Fixpoint marked (link_contam : DataFrame bool) (i m : nat) : bool :=
  match i with
  | O => default false (iat link_contam 0 m)
  | S j => marked link_contam j m || default false (iat link_contam (S j) m)
  end.

(** Lines 133-135 and lines 192-194 are the same three statements applied to
    the marking table of either method. *)
Definition extent_of_marks (link_contam : DataFrame bool)
    (link_length : gmap string Q) : option Series :=
  contam_len ← df_cummax <$> df_mul_series link_contam link_length;
  Some (sum_axis1 contam_len).

(** The total length of the links marked at step [i]. *)
Definition marked_length (link_contam : DataFrame bool)
    (link_length : gmap string Q) (i : nat) : Q :=
  np.sum (imap (λ m name,
                  if marked link_contam i m
                  then default 0%Q (link_length !! name) else 0%Q)
            (columns link_contam)).

(** A list of numbers is non-decreasing. *)
Definition nondecreasing (xs : list Q) : Prop :=
  ∀ (i j : nat) a b,
    (i ≤ j)%nat → xs !! i = Some a → xs !! j = Some b → (a <= b)%Q.

(** Both tables are rectangular and cover the same time steps, every link
    names a column of the flow table and a length, and its two end nodes name
    columns of the quality table. *)
Definition indirect_inputs_wf (node_quality flow_rate : DataFrame Q)
    (link_names link_start_node link_end_node : list string)
    (link_length : gmap string Q) : Prop :=
  wf_frame node_quality ∧ wf_frame flow_rate ∧
  length (index node_quality) = length (index flow_rate) ∧
  link_names ⊆ columns flow_rate ∧
  link_start_node ⊆ columns node_quality ∧
  link_end_node ⊆ columns node_quality ∧
  length link_start_node = length link_names ∧
  length link_end_node = length link_names ∧
  Forall (λ name, is_Some (link_length !! name)) link_names.

(** ** wntr.network.elements *)

Module elements.

(** Modelled from the spec: the class [Pattern] of
    [wntr/network/elements.py], which is not among the sources (only its
    test [test_elements.py] is).  A name, an independent copy of the
    multiplier sequence, a step size in seconds and the wrap flag. *)
Record Pattern := mkPattern {
  name : string;
  multipliers : list Q;
  step_size : Q;
  wrap : bool
}.

(** Modelled from the spec: the constructor [Pattern(name, multipliers,
    step_size, wrap)] of the missing [elements.py].  The defaults are those
    the test relies on: no multipliers, a step of one second, wrapping. *)
Definition Pattern_init (name : string) (multipliers : option (list Q))
    (step_size : option Q) (wrap : option bool) : Pattern :=
  mkPattern name (default [] multipliers) (default 1%Q step_size)
    (default true wrap).

(** Modelled from the spec: [Pattern.__eq__] of the missing [elements.py];
    multiplier sequences, step sizes and wrap flags are equal, the name is
    not compared. *)
Definition Pattern_eq (p q : Pattern) : Prop :=
  Forall2 Qeq (multipliers p) (multipliers q) ∧
  (step_size p == step_size q)%Q ∧
  wrap p = wrap q.

(** Modelled from the spec: [Pattern.at(time)] of the missing
    [elements.py] (4.1): the step index is floor(time / step_size); an empty
    pattern is the constant 1; a wrapping pattern reduces the index modulo
    its length; a pattern that does not wrap is 0 outside [0, length). *)
Definition Pattern_at (p : Pattern) (time : Q) : Q :=
  let nmult := Z.of_nat (length (multipliers p)) in
  if (nmult =? 0)%Z then 1%Q
  else
    let step := Qfloor (time / step_size p) in
    if wrap p then default 0%Q (multipliers p !! Z.to_nat (step mod nmult))
    else if ((step <? 0) || (nmult <=? step))%Z then 0%Q
    else default 0%Q (multipliers p !! Z.to_nat step).

(** Modelled from the spec: the constructor [Pattern.BinaryPattern] of the
    missing [elements.py] (4.1): an array of ceil(duration / step_size)
    zeros, set to 1 over the half-open interval [start_time, end_time)
    taken in step units; it does not wrap. *)
Definition BinaryPattern (name : string)
    (start_time end_time step_size duration : Q) : Pattern :=
  let patternlen := Z.to_nat (Qceiling (duration / step_size)) in
  let patternstart := (start_time / step_size)%Q in
  let patternend := (end_time / step_size)%Q in
  let zeros := replicate patternlen 0%Q in
  let ones_between :=
    imap (λ i zero,
            let step := inject_Z (Z.of_nat i) in
            if Qle_bool patternstart step && np.less step patternend
            then 1%Q else zero) zeros in
  mkPattern name ones_between step_size false.

(** The 0/1 multiplier list written out by hand, in the words of the
    binary-pattern equivalence: one entry per step of the duration, 1 on
    the steps whose time lies in [start_time, end_time). *)
Definition binary_multipliers_spec
    (start_time end_time step_size duration : Q) : list Q :=
  map (λ i : nat,
         let time := (inject_Z (Z.of_nat i) * step_size)%Q in
         if Qle_bool start_time time && np.less time end_time
         then 1%Q else 0%Q)
    (seq 0 (Z.to_nat (Qceiling (duration / step_size)))).

(** Modelled from the spec: the class [TimeSeries] of the missing
    [elements.py]: a base value, an optional pattern and an optional
    category label. *)
Record TimeSeries := mkTimeSeries {
  base : Q;
  pattern : option Pattern;
  category : option string
}.

(** Modelled from the spec: the kinds of argument the constructor of the
    missing [elements.py] tells apart ([None], a number, a [Pattern]) and,
    for anything else, the string of [test_TimeSeries]. *)
Inductive PyObject :=
| PyNone
| PyNumber (x : Q)
| PyStr (s : string)
| PyPattern (p : Pattern).

(** Modelled from the spec: the outcome of a constructor of the missing
    [elements.py], the object or the validation error. *)
Inductive result (A : Type) :=
| Ok (a : A)
| ValueError.
Arguments Ok {A} _.
Arguments ValueError {A}.

(** Modelled from the spec: "base is numeric" for the missing
    [TimeSeries.__init__]. *)
Definition is_numeric (o : PyObject) : Prop := ∃ x, o = PyNumber x.

(** Modelled from the spec: "pattern is None or a Pattern" for the missing
    [TimeSeries.__init__]. *)
Definition is_None_or_Pattern (o : PyObject) : Prop :=
  o = PyNone ∨ ∃ p, o = PyPattern p.

(** Modelled from the spec: [TimeSeries.__init__] of the missing
    [elements.py] (4.2): a validation error when [base] is not numeric or
    when [pattern] is neither [None] nor a [Pattern]. *)
Definition TimeSeries_init (base pattern : PyObject)
    (category : option string) : result TimeSeries :=
  match base with
  | PyNumber b =>
      match pattern with
      | PyNone => Ok (mkTimeSeries b None category)
      | PyPattern p => Ok (mkTimeSeries b (Some p) category)
      | _ => ValueError
      end
  | _ => ValueError
  end.

(** Modelled from the spec: [TimeSeries.at(time)] of the missing
    [elements.py] (4.2): the base value, scaled by the pattern if there is
    one. *)
Definition TimeSeries_at (ts : TimeSeries) (time : Q) : Q :=
  match pattern ts with
  | None => base ts
  | Some p => (base ts * Pattern_at p time)%Q
  end.

(** Modelled from the spec: the class [Demands] of the missing
    [elements.py]: an ordered sequence of [TimeSeries]. *)
Definition Demands := list TimeSeries.

(** Modelled from the spec: the filter of the missing [Demands.at]; a
    member passes when there is no filter or its category is the one asked
    for. *)
Definition in_category (filter : option string) (ts : TimeSeries) : bool :=
  match filter with
  | None => true
  | Some c => bool_decide (category ts = Some c)
  end.

(** Modelled from the spec: [Demands.at(time, category=None)] of the
    missing [elements.py] (4.3): the members are visited in order and the
    value of every member that passes the filter is added to a running
    total that starts at 0. *)
Definition Demands_at (d : Demands) (time : Q) (category : option string)
  : Q :=
  fold_left (λ demand ts,
               if in_category category ts
               then (demand + TimeSeries_at ts time)%Q else demand) d 0%Q.

(** Python's [sum(...)] of a sequence: added left to right from 0. *)
Definition py_sum (xs : list Q) : Q := fold_left Qplus xs 0%Q.

End elements.

(** ** Post-processing by the callers *)

(** [Series.cumsum()], as [test_mass_consumed] (line 54) and
    [test_volume_consumed] (line 91) apply it to the row sums. *)
Fixpoint cumsum_from (acc : Q) (xs : list Q) : list Q :=
  match xs with
  | [] => []
  | x :: rest =>
      let acc' := (acc + x)%Q in
      acc' :: cumsum_from acc' rest
  end.

Definition cumsum (xs : list Q) : list Q :=
  match xs with
  | [] => []
  | x :: rest => x :: cumsum_from x rest
  end.

Definition series_cumsum (s : Series) : Series :=
  mkSeries (s_index s) (cumsum (s_values s)).

(** [df.iloc[:n]]: the first [n] time steps of a table. *)
Definition head_rows {A} (n : nat) (df : DataFrame A) : DataFrame A :=
  mkFrame (take n (index df)) (columns df) (take n (values df)).

(** [s.iloc[:n]]: the first [n] entries of a series. *)
Definition head_series (n : nat) (s : Series) : Series :=
  mkSeries (take n (s_index s)) (take n (s_values s)).

(** The total length of the named links. *)
Definition total_length (link_names : list string)
    (link_length : gmap string Q) : Q :=
  np.sum ((λ name, default 0%Q (link_length !! name)) <$> link_names).

(** ** Sample data *)

(** Three nodes in a row, [a -- p1 --> b -- p2 --> c], over three time
    steps: node [a] carries contaminant at the second step while [p1] flows
    forward, node [c] at the third step while [p2] flows backward. *)
Definition sample_node_quality : DataFrame Q :=
  mkFrame [0; 3600; 7200]%Q ["a"; "b"; "c"]
    [[0; 0; 0]; [5; 0; 0]; [0; 0; 7]]%Q.

Definition sample_flow_rate : DataFrame Q :=
  mkFrame [0; 3600; 7200]%Q ["p2"; "p1"]
    [[1; 1]; [-1; 1]; [-2; 0]]%Q.

Definition sample_link_quality : DataFrame Q :=
  mkFrame [0; 3600; 7200]%Q ["p1"; "p2"]
    [[0; 0]; [3; 0]; [0; 2]]%Q.

Definition sample_link_names : list string := ["p1"; "p2"].
Definition sample_link_start : list string := ["a"; "b"].
Definition sample_link_end : list string := ["b"; "c"].

Definition sample_link_length : gmap string Q :=
  {[ "p1" := 100%Q; "p2" := 50%Q ]}.

Definition sample_demand : DataFrame Q :=
  mkFrame [0; 10; 20]%Q ["a"; "b"] [[1; -1]; [2; 0]; [3; 4]]%Q.

Definition sample_quality : DataFrame Q :=
  mkFrame [0; 10; 20]%Q ["a"; "b"] [[1; 1]; [0; 5]; [2; 2]]%Q.

Definition sample_node_results : Panel :=
  mkPanel [0; 10; 20]%Q ["a"; "b"]
    {[ "demand" := values sample_demand;
       "quality" := values sample_quality ]}.

(** The patterns, time series and demands of [test_elements.py]. *)
Definition pattern2b : elements.Pattern :=
  elements.Pattern_init "oops" (Some [1; 2; 3; 4; 3; 2; 1]%Q) (Some 5%Q) None.

Definition pattern3 : elements.Pattern :=
  elements.Pattern_init "nowrap" (Some [1; 12 # 10; 1]%Q) (Some 100%Q)
    (Some false).

Definition pattern4 : elements.Pattern :=
  elements.Pattern_init "constant" None None None.

Definition pattern5a : elements.Pattern :=
  elements.Pattern_init "binary" (Some [0; 0; 1; 1; 1; 1; 0; 0; 0]%Q) None
    (Some false).

Definition pattern5b : elements.Pattern :=
  elements.BinaryPattern "binary" 2 6 1 9.

Definition demandlist1 : elements.Demands :=
  let pattern1 :=
    elements.Pattern_init "1" (Some [5 # 10; 1; 4 # 10; 2 # 10]%Q) (Some 10%Q)
      None in
  let pattern2 :=
    elements.Pattern_init "2" (Some [1; 12 # 10; 1]%Q) (Some 10%Q) None in
  [ elements.mkTimeSeries (25 # 10) (Some pattern1) (Some "_base_demand");
    elements.mkTimeSeries 1 (Some pattern2) (Some "residential");
    elements.mkTimeSeries (8 # 10) (Some pattern2) (Some "residential") ].

(** Inclusion of one explicit list of labels in another. *)
Ltac list_incl :=
  let x := fresh "x" in
  let H := fresh "H" in
  intros x H;
  repeat (apply elem_of_cons in H as [->|H]; [repeat constructor|]);
  by apply elem_of_nil in H.

(** * Properties *)

(** ** Scalars *)

Lemma greater_true x y : np.greater x y = true ↔ (y < x)%Q.
Proof.
  unfold np.greater. rewrite negb_true_iff, <- not_true_iff_false, Qle_bool_iff.
  split; [apply Qnot_le_lt | apply Qlt_not_le].
Qed.

Lemma greater_false x y : np.greater x y = false ↔ (x <= y)%Q.
Proof.
  unfold np.greater. rewrite negb_false_iff. apply Qle_bool_iff.
Qed.

Lemma less_true x y : np.less x y = true ↔ (x < y)%Q.
Proof. apply greater_true. Qed.

Lemma sign_positive x : np.greater (np.sign x) 0 = true ↔ (0 < x)%Q.
Proof.
  rewrite greater_true. unfold np.sign.
  destruct (x ?= 0)%Q eqn:E.
  - apply Qeq_alt in E. split; intros H; [discriminate H | rewrite E in H; discriminate H].
  - apply Qlt_alt in E. split; intros H; [discriminate H | lra].
  - apply Qgt_alt in E. split; intros H; [lra | reflexivity].
Qed.

Lemma sign_negative x : np.less (np.sign x) 0 = true ↔ (x < 0)%Q.
Proof.
  rewrite less_true. unfold np.sign.
  destruct (x ?= 0)%Q eqn:E.
  - apply Qeq_alt in E. split; intros H; [discriminate H | rewrite E in H; discriminate H].
  - apply Qlt_alt in E. split; intros H; [lra | reflexivity].
  - apply Qgt_alt in E. split; intros H; [discriminate H | lra].
Qed.

Lemma of_bool_true_r x : (x * np.of_bool true == x)%Q.
Proof. simpl. ring. Qed.

Lemma of_bool_false_r x : (x * np.of_bool false == 0)%Q.
Proof. simpl. ring. Qed.

(** ** Cells of elementwise operations *)

Section Frames.
Context {A B C : Type}.

Lemma iat_df_map (f : A → B) (df : DataFrame A) i k :
  iat (df_map f df) i k = f <$> iat df i k.
Proof.
  unfold iat, df_map; simpl.
  rewrite list_lookup_fmap.
  destruct (values df !! i) as [row|]; simpl; [|done].
  apply list_lookup_fmap.
Qed.

Lemma iat_df_zip (f : A → B → C) (a : DataFrame A) (b : DataFrame B) i k :
  iat (df_zip f a b) i k = x ← iat a i k; y ← iat b i k; Some (f x y).
Proof.
  unfold iat, df_zip; simpl.
  rewrite lookup_zip_with.
  destruct (values a !! i) as [ra|]; simpl; [|done].
  destruct (values b !! i) as [rb|]; simpl.
  - apply lookup_zip_with.
  - by destruct (ra !! k).
Qed.

Lemma shape_df_map (f : A → B) (df : DataFrame A) :
  shape (values (df_map f df)) = shape (values df).
Proof.
  unfold shape, df_map; simpl.
  rewrite <- list_fmap_compose. apply list_fmap_ext.
  intros _ row _. simpl. apply length_map.
Qed.

Lemma shape_zip_with (f : A → B → C) (va : list (list A)) (vb : list (list B)) :
  shape va = shape vb → shape (zip_with (zip_with f) va vb) = shape va.
Proof.
  unfold shape. revert vb.
  induction va as [|ra va IH]; intros [|rb vb] Hs; simplify_eq/=; [done|].
  f_equal; [|by apply IH].
  rewrite length_zip_with. lia.
Qed.

Lemma shape_df_zip (f : A → B → C) (a : DataFrame A) (b : DataFrame B) :
  shape (values a) = shape (values b) →
  shape (values (df_zip f a b)) = shape (values a).
Proof. apply shape_zip_with. Qed.

Lemma iat_df_zip_array (f : A → B → C) (a : DataFrame A) (b : list (list B)) r i k :
  df_zip_array f a b = Some r →
  iat r i k = x ← iat a i k; y ← (b !! i ≫= (.!! k)); Some (f x y).
Proof.
  unfold df_zip_array. case_decide; [|done]. intros [= <-].
  apply (iat_df_zip f a (mkFrame [] [] b)).
Qed.

End Frames.

Lemma shape_rectangular {A} (rows : list (list A)) n :
  Forall (λ row, length row = n) rows → shape rows = replicate (length rows) n.
Proof.
  unfold shape. induction 1 as [|row rows Hrow _ IH]; [done|].
  rewrite fmap_cons, Hrow, IH. done.
Qed.

Lemma panel_items_same_shape p k1 k2 a b :
  wf_panel p → panel_getitem p k1 = Some a → panel_getitem p k2 = Some b →
  shape (values a) = shape (values b).
Proof.
  unfold panel_getitem. intros Hwf Ha Hb.
  destruct (items p !! k1) as [va|] eqn:E1; simplify_eq/=.
  destruct (items p !! k2) as [vb|] eqn:E2; simplify_eq/=.
  destruct (Hwf _ _ E1) as [La Ra]. destruct (Hwf _ _ E2) as [Lb Rb].
  rewrite (shape_rectangular _ _ Ra), (shape_rectangular _ _ Rb). congruence.
Qed.

Lemma panel_getitem_axes p k a :
  panel_getitem p k = Some a → index a = major_axis p ∧ columns a = minor_axis p.
Proof.
  unfold panel_getitem. destruct (items p !! k); intros; by simplify_eq/=.
Qed.

(** ** Contaminant consumed *)

Lemma mass_contaminant_consumed_unfold p demand quality dt :
  panel_getitem p "demand" = Some demand →
  panel_getitem p "quality" = Some quality →
  index quality !! 1%nat = Some dt →
  mass_contaminant_consumed p =
    Some (df_zip (λ x b, (x * np.of_bool b)%Q)
            (df_zip Qmult (df_map (λ d, (d * dt)%Q) demand) quality)
            (df_map (λ d, np.greater d 0) demand)).
Proof.
  intros Hd Hq Hdt. unfold mass_contaminant_consumed.
  rewrite Hd; simpl. rewrite Hq; simpl. by rewrite Hdt.
Qed.

Lemma volume_contaminant_consumed_unfold p dl demand quality dt :
  panel_getitem p "demand" = Some demand →
  panel_getitem p "quality" = Some quality →
  index quality !! 1%nat = Some dt →
  volume_contaminant_consumed p dl =
    Some (df_zip (λ x b, (x * np.of_bool b)%Q)
            (df_zip (λ x b, (x * np.of_bool b)%Q)
               (df_map (λ d, (d * dt)%Q) demand)
               (df_map (λ q, np.greater q dl) quality))
            (df_map (λ d, np.greater d 0) demand)).
Proof.
  intros Hd Hq Hdt. unfold volume_contaminant_consumed.
  rewrite Hq; simpl. rewrite Hd; simpl. by rewrite Hdt.
Qed.

(** Without a second time step there is no [index[1]]: both functions
    raise. *)
Lemma contaminant_consumed_short_axis p dl :
  (length (major_axis p) < 2)%nat →
  mass_contaminant_consumed p = None ∧
  volume_contaminant_consumed p dl = None.
Proof.
  intros Hlen.
  assert (major_axis p !! 1%nat = None) as Hnone by (apply lookup_ge_None; lia).
  unfold mass_contaminant_consumed, volume_contaminant_consumed, panel_getitem.
  destruct (items p !! "demand"), (items p !! "quality"); simpl;
    rewrite ?Hnone; done.
Qed.

(** C2: on a panel with 'demand' and 'quality' items and a time axis that
    has an entry at position 1, [mass_contaminant_consumed] returns a table
    with the axes and the shape of the inputs whose cell for node [n] at
    time [t] is demand x deltaT x quality where the demand is positive and 0
    where it is not, deltaT being the time value at position 1. *)
Theorem mass_contaminant_consumed_spec p demand quality dt :
  wf_panel p →
  panel_getitem p "demand" = Some demand →
  panel_getitem p "quality" = Some quality →
  index quality !! 1%nat = Some dt →
  ∃ MC, mass_contaminant_consumed p = Some MC ∧
    index MC = index demand ∧ columns MC = columns demand ∧
    shape (values MC) = shape (values demand) ∧
    ∀ t n d q, iat demand t n = Some d → iat quality t n = Some q →
      ∃ v, iat MC t n = Some v ∧
        ((0 < d)%Q → (v == d * dt * q)%Q) ∧ ((d <= 0)%Q → (v == 0)%Q).
Proof.
  intros Hwf Hd Hq Hdt.
  eexists. split; [by apply mass_contaminant_consumed_unfold|].
  split; [done|]. split; [done|]. split.
  - pose proof (panel_items_same_shape p _ _ _ _ Hwf Hd Hq) as Hs.
    rewrite shape_df_zip; rewrite ?shape_df_zip, ?shape_df_map; try done.
    all: by rewrite shape_df_map.
  - intros t n d q Hcd Hcq.
    rewrite !iat_df_zip, !iat_df_map, Hcd, Hcq. simpl.
    eexists. split; [done|]. split; intros Hsign.
    + apply greater_true in Hsign. rewrite Hsign. apply of_bool_true_r.
    + apply greater_false in Hsign. rewrite Hsign. apply of_bool_false_r.
Qed.

(** C4: on a panel with 'demand' and 'quality' items and a time axis that
    has an entry at position 1, [volume_contaminant_consumed] returns a
    table with the axes and the shape of the inputs whose cell for node [n]
    at time [t] is demand x deltaT where the quality strictly exceeds the
    detection limit and the demand is positive, and 0 otherwise. *)
Theorem volume_contaminant_consumed_spec p dl demand quality dt :
  wf_panel p →
  panel_getitem p "demand" = Some demand →
  panel_getitem p "quality" = Some quality →
  index quality !! 1%nat = Some dt →
  ∃ VC, volume_contaminant_consumed p dl = Some VC ∧
    index VC = index demand ∧ columns VC = columns demand ∧
    shape (values VC) = shape (values demand) ∧
    ∀ t n d q, iat demand t n = Some d → iat quality t n = Some q →
      ∃ v, iat VC t n = Some v ∧
        ((dl < q)%Q → (0 < d)%Q → (v == d * dt)%Q) ∧
        (¬ ((dl < q)%Q ∧ (0 < d)%Q) → (v == 0)%Q).
Proof.
  intros Hwf Hd Hq Hdt.
  eexists. split; [by apply volume_contaminant_consumed_unfold|].
  split; [done|]. split; [done|]. split.
  - pose proof (panel_items_same_shape p _ _ _ _ Hwf Hd Hq) as Hs.
    rewrite shape_df_zip; rewrite ?shape_df_zip, ?shape_df_map; try done.
    all: by rewrite ?shape_df_map.
  - intros t n d q Hcd Hcq.
    rewrite !iat_df_zip, !iat_df_map, Hcd, Hcq. simpl.
    eexists. split; [done|]. split.
    + intros HQ HD. apply greater_true in HQ, HD. rewrite HQ, HD. simpl. ring.
    + intros Hno.
      destruct (np.greater q dl) eqn:EQ; [|simpl; ring].
      destruct (np.greater d 0) eqn:ED; [|simpl; ring].
      destruct Hno. split; by apply greater_true.
Qed.

(** ** Column selection *)

Section Loc.
Context {A : Type}.
Implicit Types (df r : DataFrame A) (labels : list string).

Lemma get_loc_Some df label p :
  get_loc df label = Some p → columns df !! p = Some label.
Proof.
  unfold get_loc. intros H.
  destruct (list_find _ _) as [[q c]|] eqn:E; simplify_eq/=.
  apply list_find_Some in E as (Hc & -> & _). done.
Qed.

Lemma get_loc_is_Some df label :
  label ∈ columns df → is_Some (get_loc df label).
Proof.
  intros Hin. unfold get_loc. apply fmap_is_Some.
  apply list_find_elem_of with label; done.
Qed.

Lemma loc_columns_axes df labels r :
  loc_columns df labels = Some r →
  index r = index df ∧ columns r = labels ∧
  length (values r) = length (values df) ∧
  Forall (λ row, length row = length labels) (values r).
Proof.
  unfold loc_columns. intros H.
  destruct (mapM (get_loc df) labels) as [ps|] eqn:Eps; simplify_eq/=.
  destruct (mapM _ (values df)) as [rows|] eqn:Erows; simplify_eq/=.
  apply mapM_Some in Eps, Erows.
  split; [done|]. split; [done|]. split.
  - symmetry. by eapply Forall2_length.
  - apply Forall_forall. intros row' Hin.
    apply list_elem_of_lookup in Hin as [i Hi].
    destruct (Forall2_lookup_r _ _ _ _ _ Erows Hi) as (row & _ & Hrow).
    apply mapM_Some in Hrow.
    rewrite <- (Forall2_length _ _ _ Hrow). symmetry. by eapply Forall2_length.
Qed.

Lemma loc_columns_shape df labels r :
  loc_columns df labels = Some r →
  shape (values r) = replicate (length (values df)) (length labels).
Proof.
  intros H. destruct (loc_columns_axes _ _ _ H) as (_ & _ & Hlen & Hrows).
  rewrite (shape_rectangular _ _ Hrows). by rewrite Hlen.
Qed.

(** The cell at position [(i, m)] of the selection is the cell of the
    source under the [m]-th label. *)
Lemma iat_loc_columns df labels r i m label :
  loc_columns df labels = Some r → labels !! m = Some label →
  iat r i m = cell df i label.
Proof.
  unfold loc_columns. intros H Hm.
  destruct (mapM (get_loc df) labels) as [ps|] eqn:Eps; simplify_eq/=.
  destruct (mapM _ (values df)) as [rows|] eqn:Erows; simplify_eq/=.
  apply mapM_Some in Eps, Erows.
  destruct (Forall2_lookup_l _ _ _ _ _ Eps Hm) as (p & Hp & Hloc).
  unfold cell, iat; simpl. rewrite Hloc; simpl.
  destruct (values df !! i) as [row|] eqn:Ei; simpl.
  - destruct (Forall2_lookup_l _ _ _ _ _ Erows Ei) as (row' & -> & Hrow); simpl.
    apply mapM_Some in Hrow.
    destruct (Forall2_lookup_l _ _ _ _ _ Hrow Hp) as (x & -> & ->). done.
  - rewrite (proj2 (lookup_ge_None rows i)); [done|].
    rewrite <- (Forall2_length _ _ _ Erows). by apply lookup_ge_None.
Qed.

Lemma loc_columns_is_Some df labels :
  wf_frame df → labels ⊆ columns df → is_Some (loc_columns df labels).
Proof.
  intros [_ Hrows] Hsub. unfold loc_columns.
  assert (is_Some (mapM (get_loc df) labels)) as [ps Hps].
  { apply mapM_is_Some, Forall_forall. intros l Hl.
    by apply get_loc_is_Some, Hsub. }
  rewrite Hps; simpl.
  assert (is_Some (mapM (λ row : list A, mapM (row !!.) ps) (values df)))
    as [rows ->]; [|done].
  apply mapM_is_Some. eapply Forall_impl; [exact Hrows|].
  intros row Hlen; simpl. apply mapM_is_Some, Forall_forall. intros p Hp.
  apply lookup_lt_is_Some. rewrite Hlen.
  apply list_elem_of_lookup in Hp as [m Hm].
  apply mapM_Some in Hps.
  destruct (Forall2_lookup_r _ _ _ _ _ Hps Hm) as (l & _ & Hl).
  apply get_loc_Some in Hl. by eapply lookup_lt_Some.
Qed.

End Loc.

Lemma loc_columns_df_map {A B} (f : A → B) (df : DataFrame A) labels :
  loc_columns (df_map f df) labels = df_map f <$> loc_columns df labels.
Proof.
  unfold loc_columns. change (get_loc (df_map f df)) with (get_loc df).
  destruct (mapM (get_loc df) labels) as [ps|]; simpl; [|done].
  assert (mapM (λ row : list B, mapM (row !!.) ps) (map (map f) (values df))
          = map (map f) <$> mapM (λ row : list A, mapM (row !!.) ps) (values df))
    as ->.
  { induction (values df) as [|row rows IH]; [done|].
    simpl. rewrite IH. clear IH.
    assert (mapM (map f row !!.) ps = map f <$> mapM (row !!.) ps) as ->.
    { induction ps as [|p ps IH]; [done|].
      simpl. rewrite IH, list_lookup_fmap.
      clear IH. destruct (row !! p); simpl; [|done].
      destruct (mapM _ ps); reflexivity. }
    destruct (mapM (row !!.) ps); simpl; [|done].
    destruct (mapM _ rows); reflexivity. }
  destruct (mapM _ (values df)); reflexivity.
Qed.

Lemma df_zip_array_axes {A B C} (f : A → B → C) (a : DataFrame A) b r :
  df_zip_array f a b = Some r →
  index r = index a ∧ columns r = columns a ∧
  shape (values r) = shape (values a) ∧ shape b = shape (values a).
Proof.
  unfold df_zip_array. case_decide as Hs; [|done]. intros [= <-]; simpl.
  split; [done|]. split; [done|]. split; [|done]. by apply shape_zip_with.
Qed.

Lemma shape_replicate_rows {A} (rows : list (list A)) T M :
  shape rows = replicate T M →
  length rows = T ∧ Forall (λ row, length row = M) rows.
Proof.
  unfold shape. intros H. split.
  - rewrite <- (length_fmap length rows), H. apply length_replicate.
  - apply Forall_forall. intros row Hin.
    assert (length row ∈ replicate T M) as Hr.
    { rewrite <- H. by apply list_elem_of_fmap_2. }
    by apply elem_of_replicate in Hr as [-> _].
Qed.

(** ** The marking table of the indirect method *)

Lemma link_mark_true dl f qs qe :
  link_mark dl f qs qe = true ↔
  ((0 < f)%Q ∧ (dl < qs)%Q) ∨ ((f < 0)%Q ∧ (dl < qe)%Q).
Proof.
  unfold link_mark.
  rewrite orb_true_iff, !andb_true_iff, sign_positive, sign_negative,
    !greater_true.
  done.
Qed.

Lemma link_contam_indirect_inv nq fr names starts ends dl lc :
  link_contam_indirect nq fr names starts ends dl = Some lc →
  ∃ frsel nqs nqe,
    loc_columns fr names = Some frsel ∧
    loc_columns nq starts = Some nqs ∧
    loc_columns nq ends = Some nqe ∧
    index lc = index fr ∧ columns lc = names ∧
    shape (values lc) = replicate (length (values fr)) (length names) ∧
    ∀ i m, iat lc i m =
      f ← iat frsel i m; qs ← iat nqs i m; qe ← iat nqe i m;
      Some (link_mark dl f qs qe).
Proof.
  unfold link_contam_indirect. rewrite !loc_columns_df_map. intros H.
  destruct (loc_columns fr names) as [frsel|] eqn:Efr; simplify_eq/=.
  destruct (loc_columns nq starts) as [nqs|] eqn:Es; simplify_eq/=.
  destruct (loc_columns nq ends) as [nqe|] eqn:Ee; simplify_eq/=.
  destruct (df_zip_array andb
              (df_map (λ d, np.greater d 0) (df_map np.sign frsel))
              (map (map (λ q, np.greater q dl)) (values nqs)))
    as [down|] eqn:Edown; simplify_eq/=.
  destruct (df_zip_array andb
              (df_map (λ d, np.less d 0) (df_map np.sign frsel))
              (map (map (λ q, np.greater q dl)) (values nqe)))
    as [up|] eqn:Eup; simplify_eq/=.
  exists frsel, nqs, nqe. repeat (split; [done|]).
  destruct (df_zip_array_axes _ _ _ _ Edown) as (Hdi & Hdc & Hds & _).
  destruct (df_zip_array_axes _ _ _ _ Eup) as (_ & _ & Hus & _).
  destruct (loc_columns_axes _ _ _ Efr) as (Hfi & Hfc & _ & _).
  rewrite !shape_df_map in Hds, Hus.
  simpl in Hdi, Hdc.
  split; [simpl; congruence|]. split; [simpl; congruence|]. split.
  - simpl. rewrite shape_zip_with by congruence.
    rewrite Hds. by apply loc_columns_shape.
  - intros i m. rewrite iat_df_zip.
    rewrite (iat_df_zip_array _ _ _ _ i m Edown),
      (iat_df_zip_array _ _ _ _ i m Eup).
    rewrite !iat_df_map.
    change (map (map (λ q, np.greater q dl)) (values nqs) !! i ≫= (.!! m))
      with (iat (df_map (λ q, np.greater q dl) nqs) i m).
    change (map (map (λ q, np.greater q dl)) (values nqe) !! i ≫= (.!! m))
      with (iat (df_map (λ q, np.greater q dl) nqe) i m).
    rewrite !iat_df_map.
    destruct (iat frsel i m) as [f|]; simpl; [|done].
    destruct (iat nqs i m) as [qs|]; simpl; [|done].
    destruct (iat nqe i m) as [qe|]; simpl; done.
Qed.

(** Every mark follows the upstream node: the start node under positive
    flow, the end node under negative flow; no flow, no mark. *)
Lemma link_contam_indirect_cell nq fr names starts ends dl lc
    i m name s e f qs qe :
  link_contam_indirect nq fr names starts ends dl = Some lc →
  names !! m = Some name → starts !! m = Some s → ends !! m = Some e →
  cell fr i name = Some f → cell nq i s = Some qs → cell nq i e = Some qe →
  iat lc i m = Some (link_mark dl f qs qe).
Proof.
  intros H Hn Hs He Hf Hqs Hqe.
  destruct (link_contam_indirect_inv _ _ _ _ _ _ _ H)
    as (frsel & nqs & nqe & Efr & Es & Ee & _ & _ & _ & Hcell).
  rewrite Hcell.
  rewrite (iat_loc_columns _ _ _ i m _ Efr Hn), Hf; simpl.
  rewrite (iat_loc_columns _ _ _ i m _ Es Hs), Hqs; simpl.
  rewrite (iat_loc_columns _ _ _ i m _ Ee He), Hqe; simpl.
  done.
Qed.

(** ** Sums and running maxima *)

Lemma sum_Qeq xs ys : Forall2 Qeq xs ys → (np.sum xs == np.sum ys)%Q.
Proof.
  induction 1 as [|x y xs ys Hxy _ IH]; simpl; [reflexivity|].
  by rewrite Hxy, IH.
Qed.

Lemma sum_Qle xs ys : Forall2 Qle xs ys → (np.sum xs <= np.sum ys)%Q.
Proof.
  induction 1 as [|x y xs ys Hxy _ IH]; simpl; [apply Qle_refl|].
  by apply Qplus_le_compat.
Qed.

Lemma sum_zeros xs : Forall (λ x, (x == 0)%Q) xs → (np.sum xs == 0)%Q.
Proof.
  induction 1 as [|x xs Hx _ IH]; simpl; [reflexivity|].
  rewrite Hx, IH. ring.
Qed.

Lemma nondecreasing_steps xs :
  (∀ i a b, xs !! i = Some a → xs !! S i = Some b → (a <= b)%Q) →
  nondecreasing xs.
Proof.
  intros Hstep i j a b Hij. revert b.
  induction Hij as [|j Hij IH]; intros b Ha Hb.
  - rewrite Ha in Hb. injection Hb as ->. apply Qle_refl.
  - destruct (lookup_lt_is_Some_2 xs j) as [c Hc].
    { apply lookup_lt_Some in Hb. lia. }
    apply Qle_trans with c; [by apply IH | by apply (Hstep j)].
Qed.

(** The running maximum never decreases from one row to the next. *)
Lemma cummax_from_steps rows acc i r r' :
  Forall (λ row, length row = length acc) rows →
  (acc :: cummax_from acc rows) !! i = Some r →
  (acc :: cummax_from acc rows) !! S i = Some r' →
  Forall2 Qle r r'.
Proof.
  revert acc i r r'.
  induction rows as [|row rows IH]; intros acc i r r' Hlen Hr Hr'.
  - destruct i; simplify_eq/=.
  - inversion Hlen as [|? ? Hrow Hrows]; subst.
    destruct i as [|i]; simpl in Hr, Hr'.
    + simplify_eq/=.
      apply Forall2_same_length_lookup_2.
      * rewrite length_zip_with. lia.
      * intros m x y Hx Hy.
        apply lookup_zip_with_Some in Hy as (x' & z & -> & Hx' & _).
        rewrite Hx in Hx'. injection Hx' as <-. apply Q.le_max_l.
    + apply (IH (zip_with Qmax acc row) i); [|done..].
      eapply Forall_impl; [exact Hrows|].
      intros row' Hrow'; simpl in *. rewrite length_zip_with. lia.
Qed.

Lemma cummax_steps rows M i r r' :
  Forall (λ row, length row = M) rows →
  cummax rows !! i = Some r → cummax rows !! S i = Some r' →
  Forall2 Qle r r'.
Proof.
  intros Hlen. destruct rows as [|row rows]; [done|].
  inversion Hlen as [|? ? Hrow Hrows]; subst.
  by apply cummax_from_steps.
Qed.

Lemma length_cummax_from rows acc :
  length (cummax_from acc rows) = length rows.
Proof.
  revert acc. induction rows as [|row rows IH]; intros acc; simpl; [done|].
  by rewrite IH.
Qed.

Lemma length_cummax rows : length (cummax rows) = length rows.
Proof. destruct rows; simpl; [done|]. by rewrite length_cummax_from. Qed.

(** [sum(axis=1)] of a running maximum over rows of one width is
    non-decreasing. *)
Lemma sum_cummax_nondecreasing rows M :
  Forall (λ row, length row = M) rows →
  nondecreasing (np.sum <$> cummax rows).
Proof.
  intros Hlen. apply nondecreasing_steps. intros i a b.
  rewrite !list_lookup_fmap. intros Ha Hb.
  destruct (cummax rows !! i) as [r|] eqn:Er; simplify_eq/=.
  destruct (cummax rows !! S i) as [r'|] eqn:Er'; simplify_eq/=.
  apply sum_Qle. by eapply cummax_steps.
Qed.

(** ** Sticky marks *)

Lemma marked_true lc i m :
  marked lc i m = true ↔ ∃ j : nat, (j ≤ i)%nat ∧ iat lc j m = Some true.
Proof.
  induction i as [|i IH]; simpl.
  - split.
    + intros H. exists O. split; [done|].
      destruct (iat lc 0 m) as [[]|]; simplify_eq/=; done.
    + intros (j & Hj & H). assert (j = O) as -> by lia. by rewrite H.
  - rewrite orb_true_iff, IH. split.
    + intros [(j & Hj & H)|H].
      * exists j. split; [lia|done].
      * exists (S i). split; [done|].
        destruct (iat lc (S i) m) as [[]|]; simplify_eq/=; done.
    + intros (j & Hj & H).
      destruct (decide (j = S i)) as [->|Hne].
      * right. by rewrite H.
      * left. exists j. split; [lia|done].
Qed.

Lemma max_scaled (a l : Q) (ab b : bool) :
  (0 <= l)%Q → (a == np.of_bool ab * l)%Q →
  (Qmax a (np.of_bool b * l) == np.of_bool (ab || b) * l)%Q.
Proof.
  intros Hl Ha. rewrite Ha. destruct ab, b; simpl.
  - rewrite Q.max_id. reflexivity.
  - apply Q.max_l. lra.
  - apply Q.max_r. lra.
  - rewrite Q.max_id. reflexivity.
Qed.

Lemma zip_max_scale F acc accb brow :
  Forall (λ l, (0 <= l)%Q) F →
  Forall2 Qeq acc (scale F accb) →
  Forall2 Qeq (zip_with Qmax acc (scale F brow))
    (scale F (zip_with orb accb brow)).
Proof.
  unfold scale. intros HF. revert acc accb brow.
  induction HF as [|l F Hl _ IH]; intros acc accb brow Hacc.
  - destruct accb; inversion Hacc; subst; simpl.
    + constructor.
    + by destruct brow.
  - destruct accb as [|ab accb]; inversion Hacc as [|a ? acc' ? Ha Hacc']; subst.
    + constructor.
    + destruct brow as [|b brow]; simpl; constructor.
      * by apply max_scaled.
      * by apply IH.
Qed.

Lemma cummax_from_scale F brows acc accb :
  Forall (λ l, (0 <= l)%Q) F →
  Forall2 Qeq acc (scale F accb) →
  Forall2 (Forall2 Qeq) (cummax_from acc (scale F <$> brows))
    (scale F <$> cumor_from accb brows).
Proof.
  intros HF. revert acc accb.
  induction brows as [|brow brows IH]; intros acc accb Hacc; simpl.
  - constructor.
  - pose proof (zip_max_scale F acc accb brow HF Hacc) as Hstep.
    constructor; [exact Hstep|]. by apply IH.
Qed.

(** Over non-negative lengths the running maximum of the scaled marks is the
    scaled running disjunction of the marks. *)
Lemma cummax_scale F brows :
  Forall (λ l, (0 <= l)%Q) F →
  Forall2 (Forall2 Qeq) (cummax (scale F <$> brows)) (scale F <$> cumor brows).
Proof.
  intros HF. destruct brows as [|brow brows]; simpl; constructor.
  - reflexivity.
  - apply cummax_from_scale; [done|reflexivity].
Qed.

Lemma cumor_from_lookup brows accb i m ab :
  Forall (λ brow, length brow = length accb) brows →
  accb !! m = Some ab → (i < length brows)%nat →
  ∃ v, cumor_from accb brows !! i ≫= (.!! m) = Some v ∧
    (v = true ↔
       ab = true ∨ ∃ j : nat, (j ≤ i)%nat ∧ brows !! j ≫= (.!! m) = Some true).
Proof.
  revert accb i ab.
  induction brows as [|brow brows IH]; intros accb i ab Hlen Hab Hi;
    simpl in Hi; [lia|].
  inversion Hlen as [|? ? Hrow Hrows]; subst.
  destruct (lookup_lt_is_Some_2 brow m) as [b Hb].
  { rewrite Hrow. by eapply lookup_lt_Some. }
  assert (zip_with orb accb brow !! m = Some (ab || b)) as Hacc'.
  { rewrite lookup_zip_with, Hab; simpl. by rewrite Hb. }
  destruct i as [|i]; simpl.
  - rewrite Hacc'. eexists. split; [done|].
    rewrite orb_true_iff. split.
    + intros [->| ->]; [by left|]. right. exists O. simpl. by rewrite Hb.
    + intros [->|(j & Hj & H)]; [by left|].
      assert (j = O) as -> by lia. simpl in H. rewrite Hb in H.
      right. congruence.
  - destruct (IH (zip_with orb accb brow) i (ab || b)) as (v & Hv & Hiff).
    + eapply Forall_impl; [exact Hrows|].
      intros row' Hrow'; simpl in *. rewrite length_zip_with. lia.
    + done.
    + lia.
    + exists v. split; [done|]. rewrite Hiff, orb_true_iff. split.
      * intros [[->| ->]|(j & Hj & H)].
        -- by left.
        -- right. exists O. split; [lia|]. simpl. by rewrite Hb.
        -- right. exists (S j). split; [lia|done].
      * intros [->|(j & Hj & H)]; [by left; left|].
        destruct j as [|j]; simpl in H.
        -- left; right. rewrite Hb in H. congruence.
        -- right. exists j. split; [lia|done].
Qed.

Lemma length_cumor_from brows acc :
  length (cumor_from acc brows) = length brows.
Proof.
  revert acc. induction brows as [|brow brows IH]; intros acc; simpl; [done|].
  by rewrite IH.
Qed.

Lemma length_cumor brows : length (cumor brows) = length brows.
Proof. destruct brows; simpl; [done|]. by rewrite length_cumor_from. Qed.

(** The running disjunction at row [i] is the sticky mark of step [i]. *)
Lemma cumor_lookup (lc : DataFrame bool) M i m :
  Forall (λ brow, length brow = M) (values lc) →
  (i < length (values lc))%nat → (m < M)%nat →
  cumor (values lc) !! i ≫= (.!! m) = Some (marked lc i m).
Proof.
  intros Hlen Hi Hm.
  assert (∃ v, cumor (values lc) !! i ≫= (.!! m) = Some v ∧
            (v = true ↔ ∃ j : nat, (j ≤ i)%nat ∧ iat lc j m = Some true))
    as (v & -> & Hiff).
  { unfold iat. destruct (values lc) as [|brow brows]; simpl in Hi; [lia|].
    inversion Hlen as [|? ? Hrow Hrows]; subst.
    destruct (lookup_lt_is_Some_2 brow m) as [b Hb]; [done|].
    destruct i as [|i]; simpl.
    - rewrite Hb. eexists. split; [done|]. split.
      + intros ->. exists O. simpl. by rewrite Hb.
      + intros (j & Hj & H). assert (j = O) as -> by lia.
        simpl in H. congruence.
    - destruct (cumor_from_lookup brows brow i m b) as (v & Hv & Hiff);
        [done|done|lia|].
      exists v. split; [done|]. rewrite Hiff. split.
      + intros [->|(j & Hj & H)].
        * exists O. split; [lia|]. simpl. by rewrite Hb.
        * exists (S j). split; [lia|done].
      + intros (j & Hj & H). destruct j as [|j]; simpl in H.
        * left. congruence.
        * right. exists j. split; [lia|done]. }
  f_equal. apply eq_true_iff_eq. by rewrite Hiff, marked_true.
Qed.

(** ** Extent of contamination *)

Lemma df_mul_series_inv lc ll cl :
  df_mul_series lc ll = Some cl →
  ∃ F, Forall2 (λ name l, ll !! name = Some l) (columns lc) F ∧
    index cl = index lc ∧ columns cl = columns lc ∧
    values cl = scale F <$> values lc.
Proof.
  unfold df_mul_series. intros H.
  destruct (mapM (ll !!.) (columns lc)) as [F|] eqn:EF; simplify_eq/=.
  exists F. by apply mapM_Some in EF.
Qed.

Lemma extent_of_marks_inv lc ll ec :
  extent_of_marks lc ll = Some ec →
  ∃ F, Forall2 (λ name l, ll !! name = Some l) (columns lc) F ∧
    s_index ec = index lc ∧
    s_values ec = np.sum <$> cummax (scale F <$> values lc).
Proof.
  unfold extent_of_marks. intros H.
  destruct (df_mul_series lc ll) as [cl|] eqn:Ecl; simplify_eq/=.
  destruct (df_mul_series_inv _ _ _ Ecl) as (F & HF & Hi & _ & Hv).
  exists F. by rewrite Hv.
Qed.

Lemma extent_of_marks_length lc ll ec :
  extent_of_marks lc ll = Some ec →
  length (s_values ec) = length (values lc).
Proof.
  intros H. destruct (extent_of_marks_inv _ _ _ H) as (F & _ & _ & ->).
  by rewrite length_fmap, length_cummax, length_fmap.
Qed.

Lemma extent_of_marks_nondecreasing lc ll ec :
  Forall (λ brow, length brow = length (columns lc)) (values lc) →
  extent_of_marks lc ll = Some ec →
  nondecreasing (s_values ec).
Proof.
  intros Hrows H.
  destruct (extent_of_marks_inv _ _ _ H) as (F & HF & _ & ->).
  apply sum_cummax_nondecreasing with (length F).
  apply Forall_fmap. eapply Forall_impl; [exact Hrows|].
  intros brow Hbrow; simpl. unfold scale.
  rewrite length_zip_with, Hbrow, (Forall2_length _ _ _ HF). lia.
Qed.

Lemma extent_of_marks_value lc ll ec i :
  Forall (λ brow, length brow = length (columns lc)) (values lc) →
  map_Forall (λ _ l, (0 <= l)%Q) ll →
  extent_of_marks lc ll = Some ec →
  (i < length (values lc))%nat →
  ∃ v, s_values ec !! i = Some v ∧ (v == marked_length lc ll i)%Q.
Proof.
  intros Hrows Hpos H Hi.
  destruct (extent_of_marks_inv _ _ _ H) as (F & HF & _ & ->).
  assert (Forall (λ l, (0 <= l)%Q) F) as HF0.
  { apply Forall_forall. intros l Hl.
    apply list_elem_of_lookup in Hl as [m Hm].
    destruct (Forall2_lookup_r _ _ _ _ _ HF Hm) as (name & _ & Hname).
    by apply (Hpos name). }
  pose proof (cummax_scale F (values lc) HF0) as Hcm.
  destruct (lookup_lt_is_Some_2 (cumor (values lc)) i) as [crow Hcrow].
  { by rewrite length_cumor. }
  assert (scale F <$> cumor (values lc) !! i = Some (scale F crow)) as Hsc.
  { by rewrite Hcrow. }
  rewrite <- list_lookup_fmap in Hsc.
  destruct (Forall2_lookup_r _ _ _ _ _ Hcm Hsc) as (r & Hr & Hrq).
  exists (np.sum r). split.
  { by rewrite list_lookup_fmap, Hr. }
  unfold marked_length. apply sum_Qeq.
  transitivity (scale F crow); [exact Hrq|].
  assert (∀ m, (m < length (columns lc))%nat →
            crow !! m = Some (marked lc i m)) as Hmark.
  { intros m Hm.
    pose proof (cumor_lookup lc _ i m Hrows Hi Hm) as Hc.
    by rewrite Hcrow in Hc. }
  pose proof (Forall2_length _ _ _ HF) as HlenF.
  apply Forall2_same_length_lookup_2.
  - unfold scale. rewrite length_zip_with, length_imap.
    destruct (decide (length (columns lc) ≤ length crow)%nat); [lia|].
    assert (length crow < length (columns lc))%nat as Hlt by lia.
    apply Hmark, lookup_lt_Some in Hlt. lia.
  - intros m x y Hx Hy.
    rewrite list_lookup_imap in Hy.
    destruct (columns lc !! m) as [name|] eqn:Ename; simplify_eq/=.
    unfold scale in Hx.
    apply lookup_zip_with_Some in Hx as (b & l & -> & Hb & Hl).
    rewrite Hmark in Hb by (by eapply lookup_lt_Some).
    injection Hb as <-.
    destruct (Forall2_lookup_l _ _ _ _ _ HF Ename) as (l' & Hl' & ->).
    rewrite Hl in Hl'. injection Hl' as <-.
    destruct (marked lc i m); simpl; ring.
Qed.

(** ** Inputs on which the indirect method runs to completion *)

Lemma link_contam_indirect_is_Some nq fr names starts ends ll dl :
  indirect_inputs_wf nq fr names starts ends ll →
  is_Some (link_contam_indirect nq fr names starts ends dl).
Proof.
  intros (Hnq & Hfr & HT & Hn & Hs & He & Hls & Hle & _).
  unfold link_contam_indirect. rewrite !loc_columns_df_map.
  destruct (loc_columns_is_Some fr names Hfr Hn) as [frsel Efr].
  destruct (loc_columns_is_Some nq starts Hnq Hs) as [nqs Es].
  destruct (loc_columns_is_Some nq ends Hnq He) as [nqe Ee].
  rewrite Efr, Es, Ee; simpl.
  pose proof (loc_columns_shape _ _ _ Efr) as Sfr.
  pose proof (loc_columns_shape _ _ _ Es) as Ss.
  pose proof (loc_columns_shape _ _ _ Ee) as Se.
  destruct Hnq as [Tq _]. destruct Hfr as [Tf _].
  unfold df_zip_array.
  rewrite !shape_df_map.
  change (map (map (λ q, np.greater q dl)) (values nqs))
    with (values (df_map (λ q, np.greater q dl) nqs)).
  change (map (map (λ q, np.greater q dl)) (values nqe))
    with (values (df_map (λ q, np.greater q dl) nqe)).
  rewrite !shape_df_map, Sfr, Ss, Se, Hls, Hle, Tq, Tf, HT.
  rewrite !decide_True by done. done.
Qed.

Lemma extent_of_marks_is_Some lc ll :
  Forall (λ name, is_Some (ll !! name)) (columns lc) →
  is_Some (extent_of_marks lc ll).
Proof.
  intros H. unfold extent_of_marks, df_mul_series.
  apply mapM_is_Some in H as [F ->]. done.
Qed.

Lemma link_contam_indirect_rows nq fr names starts ends dl lc :
  link_contam_indirect nq fr names starts ends dl = Some lc →
  length (values lc) = length (values fr) ∧
  Forall (λ brow, length brow = length (columns lc)) (values lc).
Proof.
  intros H.
  destruct (link_contam_indirect_inv _ _ _ _ _ _ _ H)
    as (_ & _ & _ & _ & _ & _ & _ & Hc & Hshape & _).
  rewrite Hc. by apply shape_replicate_rows.
Qed.

Lemma extent_contamination_indirect_unfold nq fr names starts ends ll dl :
  extent_contamination_indirect nq fr names starts ends ll dl =
  link_contam_indirect nq fr names starts ends dl
    ≫= λ lc, extent_of_marks lc ll.
Proof. reflexivity. Qed.

Lemma extent_contamination_direct_unfold lq ll dl :
  extent_contamination_direct lq ll dl =
  extent_of_marks (link_contam_direct lq dl) ll.
Proof. reflexivity. Qed.

Lemma link_contam_direct_rows lq dl :
  wf_frame lq →
  Forall (λ brow, length brow = length (columns (link_contam_direct lq dl)))
    (values (link_contam_direct lq dl)).
Proof.
  intros [_ Hrows]. simpl. apply Forall_fmap.
  eapply Forall_impl; [exact Hrows|]. intros row Hrow; simpl.
  by rewrite length_map.
Qed.

(** C1: on well-formed inputs with non-negative link lengths,
    [extent_contamination_indirect] returns a series with one value per time
    step such that, with [lc] the marking table of line 131:
    - [lc] marks link [m] at step [i] iff (flow > 0 and the quality at the
      start node > detection_limit) or (flow < 0 and the quality at the end
      node > detection_limit); zero flow never marks;
    - the link counts as marked at step [i] iff [lc] marks it at some step
      [j <= i];
    - the returned value at step [i] is the sum of [link_length] over the
      links marked at step [i]. *)
Theorem extent_contamination_indirect_spec nq fr names starts ends ll dl :
  indirect_inputs_wf nq fr names starts ends ll →
  map_Forall (λ _ l, (0 <= l)%Q) ll →
  ∃ lc ec,
    link_contam_indirect nq fr names starts ends dl = Some lc ∧
    extent_contamination_indirect nq fr names starts ends ll dl = Some ec ∧
    columns lc = names ∧
    (∀ (i m : nat) name s e f qs qe,
       names !! m = Some name → starts !! m = Some s → ends !! m = Some e →
       cell fr i name = Some f →
       cell nq i s = Some qs → cell nq i e = Some qe →
       ∃ b, iat lc i m = Some b ∧
         (b = true ↔
            ((0 < f)%Q ∧ (dl < qs)%Q) ∨ ((f < 0)%Q ∧ (dl < qe)%Q)) ∧
         ((f == 0)%Q → b = false)) ∧
    (∀ i m : nat,
       marked lc i m = true ↔
       ∃ j : nat, (j ≤ i)%nat ∧ iat lc j m = Some true) ∧
    s_index ec = index fr ∧
    length (s_values ec) = length (index fr) ∧
    (∀ i : nat, (i < length (index fr))%nat →
       ∃ v, s_values ec !! i = Some v ∧ (v == marked_length lc ll i)%Q).
Proof.
  intros Hwf Hpos.
  destruct (link_contam_indirect_is_Some _ _ _ _ _ _ dl Hwf) as [lc Hlc].
  destruct (link_contam_indirect_inv _ _ _ _ _ _ _ Hlc)
    as (_ & _ & _ & _ & _ & _ & Hidx & Hcols & _ & _).
  destruct (link_contam_indirect_rows _ _ _ _ _ _ _ Hlc) as [Hlen Hrows].
  destruct Hwf as (_ & [Tf _] & _ & _ & _ & _ & _ & _ & Hll).
  destruct (extent_of_marks_is_Some lc ll) as [ec Hec]; [by rewrite Hcols|].
  exists lc, ec. split; [done|]. split.
  { by rewrite extent_contamination_indirect_unfold, Hlc. }
  split; [done|]. split.
  { intros i m name s e f qs qe Hn Hs He Hf Hqs Hqe.
    exists (link_mark dl f qs qe). split.
    - by eapply link_contam_indirect_cell.
    - split; [apply link_mark_true|].
      intros Hf0. apply not_true_is_false. rewrite link_mark_true.
      intros [[H _]|[H _]]; lra. }
  split; [apply marked_true|]. split.
  { destruct (extent_of_marks_inv _ _ _ Hec) as (_ & _ & -> & _). done. }
  split.
  { rewrite (extent_of_marks_length _ _ _ Hec). congruence. }
  intros i Hi. apply extent_of_marks_value; [done..|]. lia.
Qed.

(** C3: the series returned by [extent_contamination_indirect] and, on a
    rectangular table, the series returned by [extent_contamination_direct]
    are non-decreasing along the time axis, whatever the detection limit and
    the lengths. *)
Theorem extent_contamination_nondecreasing :
  (∀ nq fr names starts ends ll dl ec,
     extent_contamination_indirect nq fr names starts ends ll dl = Some ec →
     nondecreasing (s_values ec)) ∧
  (∀ lq ll dl ec,
     wf_frame lq →
     extent_contamination_direct lq ll dl = Some ec →
     nondecreasing (s_values ec)).
Proof.
  split.
  - intros nq fr names starts ends ll dl ec.
    rewrite extent_contamination_indirect_unfold. intros H.
    destruct (link_contam_indirect _ _ _ _ _ _) as [lc|] eqn:Hlc;
      simplify_eq/=.
    destruct (link_contam_indirect_rows _ _ _ _ _ _ _ Hlc) as [_ Hrows].
    by eapply extent_of_marks_nondecreasing.
  - intros lq ll dl ec Hwf. rewrite extent_contamination_direct_unfold.
    apply extent_of_marks_nondecreasing. by apply link_contam_direct_rows.
Qed.

(** C10: every threshold comparison is strict.  A cell whose quality equals
    the detection limit contributes no volume; a link whose upstream node has
    a quality equal to the detection limit is not marked by the indirect
    method; a link whose own quality equals the detection limit is not marked
    by the direct method, and a link whose quality has equalled the detection
    limit at every step so far is not counted at this step. *)
Theorem detection_limit_strict (dl : Q) :
  (∀ p demand quality VC (t n : nat) d q,
     panel_getitem p "demand" = Some demand →
     panel_getitem p "quality" = Some quality →
     volume_contaminant_consumed p dl = Some VC →
     iat demand t n = Some d → iat quality t n = Some q → (q == dl)%Q →
     ∃ v, iat VC t n = Some v ∧ (v == 0)%Q) ∧
  (∀ nq fr names starts ends lc (i m : nat) name s e f qs qe,
     link_contam_indirect nq fr names starts ends dl = Some lc →
     names !! m = Some name → starts !! m = Some s → ends !! m = Some e →
     cell fr i name = Some f →
     cell nq i s = Some qs → cell nq i e = Some qe →
     ((0 < f)%Q → (qs == dl)%Q) → ((f < 0)%Q → (qe == dl)%Q) →
     iat lc i m = Some false) ∧
  (∀ lq (i m : nat) q,
     iat lq i m = Some q → (q == dl)%Q →
     iat (link_contam_direct lq dl) i m = Some false) ∧
  (∀ lq (i m : nat),
     (∀ (j : nat) q, (j ≤ i)%nat → iat lq j m = Some q → (q == dl)%Q) →
     marked (link_contam_direct lq dl) i m = false).
Proof.
  assert (∀ q, (q == dl)%Q → np.greater q dl = false) as Heq.
  { intros q Hq. apply greater_false. lra. }
  repeat split.
  - intros p demand quality VC t n d q Hd Hq HVC Hcd Hcq Hqdl.
    destruct (index quality !! 1%nat) as [dt|] eqn:Hdt.
    + rewrite (volume_contaminant_consumed_unfold _ _ _ _ _ Hd Hq Hdt) in HVC.
      injection HVC as <-.
      rewrite !iat_df_zip, !iat_df_map, Hcd, Hcq; simpl.
      eexists. split; [done|]. rewrite (Heq q Hqdl). simpl. ring.
    + unfold volume_contaminant_consumed in HVC.
      rewrite Hq in HVC; simpl in HVC. rewrite Hd in HVC; simpl in HVC.
      rewrite Hdt in HVC. done.
  - intros nq fr names starts ends lc i m name s e f qs qe
      Hlc Hn Hs He Hf Hqs Hqe Hpos Hneg.
    rewrite (link_contam_indirect_cell _ _ _ _ _ _ _ _ _ _ _ _ _ _ _
               Hlc Hn Hs He Hf Hqs Hqe).
    f_equal. apply not_true_is_false. rewrite link_mark_true.
    intros [[H1 H2]|[H1 H2]]; [apply Hpos in H1|apply Hneg in H1]; lra.
  - intros lq i m q Hq Hqdl. unfold link_contam_direct.
    rewrite iat_df_map, Hq. simpl. by rewrite Heq.
  - intros lq i m Hall. apply not_true_is_false. rewrite marked_true.
    intros (j & Hj & H). unfold link_contam_direct in H.
    rewrite iat_df_map in H.
    destruct (iat lq j m) as [q|] eqn:Hq; simplify_eq/=.
    rewrite Heq in H; [done|]. by apply (Hall j).
Qed.

(** ** Patterns *)

Import elements.

Lemma Qfloor_unique (x : Q) (z : Z) :
  (inject_Z z <= x)%Q → (x < inject_Z (z + 1))%Q → Qfloor x = z.
Proof.
  intros Hlo Hhi.
  pose proof (Qfloor_le x) as Flo. pose proof (Qlt_floor x) as Fhi.
  assert (Qfloor x < z + 1)%Z as H1.
  { rewrite Zlt_Qlt. eapply Qle_lt_trans; [exact Flo|exact Hhi]. }
  assert (z < Qfloor x + 1)%Z as H2.
  { rewrite Zlt_Qlt. eapply Qle_lt_trans; [exact Hlo|exact Fhi]. }
  lia.
Qed.

Lemma Qfloor_add_Z (x : Q) (z : Z) :
  Qfloor (x + inject_Z z) = (Qfloor x + z)%Z.
Proof.
  pose proof (Qfloor_le x) as Flo. pose proof (Qlt_floor x) as Fhi.
  apply Qfloor_unique.
  - rewrite inject_Z_plus. lra.
  - rewrite !inject_Z_plus in *. lra.
Qed.

(** Moving a time by a whole number of steps moves its step index by that
    number; with a zero step the quotient, and so the index, stays put. *)
Lemma step_index_shift (t S : Q) (n : Z) :
  ∃ k : Z, Qfloor ((t + inject_Z n * S) / S) = (Qfloor (t / S) + k * n)%Z.
Proof.
  destruct (Qeq_dec S 0) as [HS|HS].
  - exists 0%Z. rewrite Z.add_0_r. apply Qfloor_comp.
    unfold Qdiv. assert (/ S == 0)%Q as ->; [|ring].
    destruct S as [[|?|?] ?]; try reflexivity; discriminate HS.
  - exists 1%Z. rewrite Z.mul_1_l, <- Qfloor_add_Z. apply Qfloor_comp.
    by field.
Qed.

(** C5: with L multipliers, step S and index = floor(time / S), [at] returns
    multipliers[index mod L] for a wrapping pattern with L > 0,
    multipliers[index] for a pattern that does not wrap and 0 <= index < L,
    0 for a non-empty pattern that does not wrap and an index outside
    [0, L), and 1 for an empty pattern whatever its wrap flag. *)
Theorem Pattern_at_spec (p : Pattern) (time : Q) :
  let L := Z.of_nat (length (multipliers p)) in
  let idx := Qfloor (time / step_size p) in
  (wrap p = true → (0 < L)%Z →
     multipliers p !! Z.to_nat (idx mod L) = Some (Pattern_at p time)) ∧
  (wrap p = false → (0 ≤ idx < L)%Z →
     multipliers p !! Z.to_nat idx = Some (Pattern_at p time)) ∧
  (wrap p = false → (0 < L)%Z → ¬ (0 ≤ idx < L)%Z →
     Pattern_at p time = 0%Q) ∧
  (L = 0%Z → Pattern_at p time = 1%Q).
Proof.
  intros L idx. unfold Pattern_at. fold L. fold idx.
  assert (∀ k : Z, (0 ≤ k < L)%Z →
            multipliers p !! Z.to_nat k
            = Some (default 0%Q (multipliers p !! Z.to_nat k))) as Hin.
  { intros k Hk.
    destruct (lookup_lt_is_Some_2 (multipliers p) (Z.to_nat k)) as [x ->];
      [subst L; lia|done]. }
  repeat split.
  - intros -> HL. rewrite (proj2 (Z.eqb_neq L 0)) by lia.
    apply Hin. apply Z.mod_pos_bound. lia.
  - intros -> Hidx. rewrite (proj2 (Z.eqb_neq L 0)) by lia.
    rewrite (proj2 (Z.ltb_ge idx 0)), (proj2 (Z.leb_gt L idx)) by lia.
    simpl. by apply Hin.
  - intros -> HL Hout. rewrite (proj2 (Z.eqb_neq L 0)) by lia.
    destruct (idx <? 0)%Z eqn:E1; [done|].
    destruct (L <=? idx)%Z eqn:E2; [done|].
    apply Z.ltb_ge in E1. apply Z.leb_gt in E2. lia.
  - intros ->. done.
Qed.

(** C8: a wrapping pattern of length L and step S takes the same value at
    [t] and at [t + L x S]. *)
Theorem Pattern_wrap_law (p : Pattern) (t : Q) :
  wrap p = true →
  Pattern_at p t =
  Pattern_at p
    (t + inject_Z (Z.of_nat (length (multipliers p))) * step_size p).
Proof.
  intros Hwrap. unfold Pattern_at. rewrite Hwrap.
  set (L := Z.of_nat (length (multipliers p))).
  destruct (L =? 0)%Z; [done|].
  destruct (step_index_shift t (step_size p) L) as [k ->].
  by rewrite Zdiv.Z_mod_plus_full.
Qed.

(** C6: for a positive step the pattern built by [BinaryPattern] equals, by
    pattern equality, the pattern built directly from the hand-written 0/1
    list of the same start, end, step and duration with wrap false. *)
Theorem BinaryPattern_equivalence name name'
    (start_time end_time step_size duration : Q) :
  (0 < step_size)%Q →
  Pattern_eq
    (BinaryPattern name start_time end_time step_size duration)
    (Pattern_init name'
       (Some (binary_multipliers_spec start_time end_time step_size duration))
       (Some step_size) (Some false)).
Proof.
  intros HS. unfold Pattern_eq, BinaryPattern, Pattern_init; simpl.
  split; [|split; reflexivity].
  unfold binary_multipliers_spec.
  set (n := Z.to_nat (Qceiling (duration / step_size))).
  apply Forall2_same_length_lookup_2.
  - by rewrite length_imap, length_replicate, length_map, length_seq.
  - intros i x y. rewrite list_lookup_imap, list_lookup_fmap.
    intros Hx Hy.
    destruct (replicate n 0%Q !! i) as [z|] eqn:Ez; simplify_eq/=.
    apply lookup_replicate in Ez as [-> Hi].
    rewrite lookup_seq_lt in Hy by done. simplify_eq/=.
    set (k := inject_Z (Z.of_nat i)).
    assert (Qle_bool (start_time / step_size) k
            = Qle_bool start_time (k * step_size)) as ->.
    { apply eq_true_iff_eq. rewrite !Qle_bool_iff. split; intros H.
      - apply (Qmult_le_r _ _ step_size) in H; [|done].
        assert (start_time / step_size * step_size == start_time)%Q as E
          by (field; lra).
        by rewrite E in H.
      - apply Qle_shift_div_r; done. }
    assert (np.less k (end_time / step_size)
            = np.less (k * step_size) end_time) as ->.
    { apply eq_true_iff_eq. rewrite !less_true. split; intros H.
      - apply (Qmult_lt_r _ _ step_size) in H; [|done].
        assert (end_time / step_size * step_size == end_time)%Q as E
          by (field; lra).
        by rewrite E in H.
      - apply Qlt_shift_div_l; done. }
    reflexivity.
Qed.

(** ** Time series and demands *)

(** C9: constructing a [TimeSeries] raises the validation error exactly when
    the base is not numeric or the pattern is neither [None] nor a
    [Pattern]; otherwise it returns the object holding the three
    arguments. *)
Theorem TimeSeries_init_validation (base pattern : PyObject)
    (category : option string) :
  (TimeSeries_init base pattern category = ValueError ↔
     ¬ is_numeric base ∨ ¬ is_None_or_Pattern pattern) ∧
  (is_numeric base → is_None_or_Pattern pattern →
     ∃ ts, TimeSeries_init base pattern category = Ok ts ∧
       PyNumber (elements.base ts) = base ∧
       match elements.pattern ts with
       | None => pattern = PyNone
       | Some pat => pattern = PyPattern pat
       end ∧
       elements.category ts = category).
Proof.
  unfold is_numeric, is_None_or_Pattern. split; [split|].
  - intros H. destruct base as [| x | s | q].
    1, 3, 4: left; intros [y Hy]; discriminate Hy.
    destruct pattern as [| y | s | q]; simpl in H.
    1, 4: discriminate H.
    all: right; intros [Hn|[q' Hq]]; discriminate.
  - intros [Hb|Hp].
    + destruct base as [| x | s | q]; try reflexivity.
      destruct Hb. by exists x.
    + destruct base as [| x | s | q]; try reflexivity.
      destruct pattern as [| y | s | q]; try reflexivity; destruct Hp.
      * by left.
      * right. by exists q.
  - intros [x ->] [->|[q ->]]; simpl; eexists; (split; [reflexivity|]);
      simpl; done.
Qed.

Lemma Demands_at_from d time category acc :
  fold_left (λ demand ts,
               if in_category category ts
               then (demand + TimeSeries_at ts time)%Q else demand) d acc
  = fold_left Qplus
      ((λ ts, TimeSeries_at ts time) <$> filter (λ ts, in_category category ts) d)
      acc.
Proof.
  revert acc. induction d as [|ts d IH]; intros acc; simpl; [done|].
  rewrite filter_cons. destruct (in_category category ts); simpl; apply IH.
Qed.

(** C7: [demands.at(t, cat)] is the sum of [member.at(t)] over the members
    whose category is [cat], or over all members when [cat] is [None]; a
    collection without such a member yields 0. *)
Theorem Demands_at_additive (d : Demands) (t : Q) (cat : option string) :
  Demands_at d t cat =
    py_sum ((λ member, TimeSeries_at member t)
              <$> filter (λ member, cat = None ∨ category member = cat) d) ∧
  (filter (λ member, cat = None ∨ category member = cat) d = [] →
     Demands_at d t cat = 0%Q).
Proof.
  assert (filter (λ member, cat = None ∨ category member = cat) d
          = filter (λ ts, in_category cat ts) d) as ->.
  { apply list_filter_iff. intros ts. unfold in_category.
    destruct cat as [c|]; simpl.
    - rewrite bool_decide_spec. split; [|by right].
      intros [H|H]; [discriminate H|exact H].
    - split; [done|by left]. }
  assert (Demands_at d t cat =
          py_sum ((λ member, TimeSeries_at member t)
                    <$> filter (λ ts, in_category cat ts) d)) as Heq.
  { apply Demands_at_from. }
  split; [exact Heq|]. intros Hnil. by rewrite Heq, Hnil.
Qed.

(** * The sample data and the values of the test suite *)

Lemma sample_inputs_wf :
  indirect_inputs_wf sample_node_quality sample_flow_rate
    sample_link_names sample_link_start sample_link_end sample_link_length.
Proof.
  unfold indirect_inputs_wf, wf_frame; simpl.
  split; [split; [reflexivity|repeat constructor]|].
  split; [split; [reflexivity|repeat constructor]|].
  split; [reflexivity|].
  split; [list_incl|]. split; [list_incl|]. split; [list_incl|].
  split; [reflexivity|]. split; [reflexivity|].
  repeat constructor; vm_compute; eauto.
Defined.

Lemma sample_lengths_nonneg :
  map_Forall (λ _ l, (0 <= l)%Q) sample_link_length.
Proof.
  unfold sample_link_length.
  repeat (apply map_Forall_insert_2; [discriminate|]).
  apply map_Forall_empty.
Defined.

Lemma sample_node_results_wf : wf_panel sample_node_results.
Proof.
  unfold wf_panel, sample_node_results; simpl.
  repeat (apply map_Forall_insert_2;
            [split; [reflexivity|repeat constructor]|]).
  apply map_Forall_empty.
Defined.

Lemma sample_link_quality_wf : wf_frame sample_link_quality.
Proof. split; [reflexivity|repeat constructor]. Defined.

(** On the sample network the extent is 0, then the 100 m of [p1], then the
    150 m of [p1] and [p2]: [p1] stays counted at the third step although
    its flow has stopped. *)
Lemma extent_contamination_indirect_sample :
  ∃ ec,
    extent_contamination_indirect sample_node_quality sample_flow_rate
      sample_link_names sample_link_start sample_link_end
      sample_link_length 0 = Some ec ∧
    ∃ v, s_values ec !! 2%nat = Some v ∧ (v == 150)%Q.
Proof.
  destruct (extent_contamination_indirect_spec _ _ _ _ _ _ 0%Q
              sample_inputs_wf sample_lengths_nonneg)
    as (lc & ec & Hlc & Hec & _ & _ & _ & _ & _ & Hval).
  exists ec. split; [exact Hec|].
  destruct (Hval 2%nat) as (v & Hv & Hveq); [simpl; lia|].
  exists v. split; [exact Hv|].
  vm_compute in Hlc. injection Hlc as <-.
  rewrite Hveq. vm_compute. reflexivity.
Defined.

Lemma mass_contaminant_consumed_sample :
  ∃ MC, mass_contaminant_consumed sample_node_results = Some MC ∧
    (∃ v, iat MC 2 1 = Some v ∧ (v == 4 * 10 * 2)%Q) ∧
    (∃ v, iat MC 0 1 = Some v ∧ (v == 0)%Q).
Proof.
  destruct (mass_contaminant_consumed_spec sample_node_results
              sample_demand sample_quality 10%Q
              sample_node_results_wf eq_refl eq_refl eq_refl)
    as (MC & HMC & _ & _ & _ & Hcell).
  exists MC. split; [exact HMC|]. split.
  - destruct (Hcell 2%nat 1%nat 4%Q 2%Q eq_refl eq_refl) as (v & Hv & Hpos & _).
    exists v. split; [exact Hv|]. apply Hpos. reflexivity.
  - destruct (Hcell 0%nat 1%nat (-1)%Q 1%Q eq_refl eq_refl) as (v & Hv & _ & Hneg).
    exists v. split; [exact Hv|]. apply Hneg. discriminate.
Defined.

Lemma volume_contaminant_consumed_sample :
  ∃ VC, volume_contaminant_consumed sample_node_results 0 = Some VC ∧
    (∃ v, iat VC 2 1 = Some v ∧ (v == 4 * 10)%Q) ∧
    (∃ v, iat VC 1 0 = Some v ∧ (v == 0)%Q).
Proof.
  destruct (volume_contaminant_consumed_spec sample_node_results 0%Q
              sample_demand sample_quality 10%Q
              sample_node_results_wf eq_refl eq_refl eq_refl)
    as (VC & HVC & _ & _ & _ & Hcell).
  exists VC. split; [exact HVC|]. split.
  - destruct (Hcell 2%nat 1%nat 4%Q 2%Q eq_refl eq_refl) as (v & Hv & Hpos & _).
    exists v. split; [exact Hv|]. apply Hpos; reflexivity.
  - destruct (Hcell 1%nat 0%nat 2%Q 0%Q eq_refl eq_refl) as (v & Hv & _ & Hno).
    exists v. split; [exact Hv|]. apply Hno. intros [H _]. discriminate H.
Defined.

Lemma extent_contamination_nondecreasing_sample :
  (∃ ec,
     extent_contamination_indirect sample_node_quality sample_flow_rate
       sample_link_names sample_link_start sample_link_end
       sample_link_length 0 = Some ec ∧ nondecreasing (s_values ec)) ∧
  (∃ ec,
     extent_contamination_direct sample_link_quality sample_link_length 0
       = Some ec ∧ nondecreasing (s_values ec)).
Proof.
  destruct extent_contamination_nondecreasing as [Hi Hd]. split.
  - destruct (extent_contamination_indirect sample_node_quality
                sample_flow_rate sample_link_names sample_link_start
                sample_link_end sample_link_length 0) as [ec|] eqn:E.
    + exists ec. split; [reflexivity|]. eapply Hi. exact E.
    + vm_compute in E. discriminate E.
  - destruct (extent_contamination_direct sample_link_quality
                sample_link_length 0) as [ec|] eqn:E.
    + exists ec. split; [reflexivity|].
      eapply Hd; [exact sample_link_quality_wf|exact E].
    + vm_compute in E. discriminate E.
Defined.

(** A link whose quality sits exactly on the detection limit is not
    marked: with the limit at 3 the sample link [p1] is never marked. *)
Lemma detection_limit_strict_sample :
  iat (link_contam_direct sample_link_quality 3) 1 0 = Some false ∧
  marked (link_contam_direct sample_link_quality 0) 2 1 = true ∧
  marked (link_contam_direct sample_link_quality 2) 2 1 = false.
Proof.
  split; [|split].
  - apply (proj1 (proj2 (proj2 (detection_limit_strict 3)))
             sample_link_quality 1%nat 0%nat 3%Q); reflexivity.
  - reflexivity.
  - reflexivity.
Defined.

(** The evaluations of [test_Pattern]. *)
Example test_Pattern_evaluations :
  Pattern_at pattern2b 10 = 3%Q ∧
  Pattern_at pattern2b (25 # 2) = 3%Q ∧
  Pattern_at pattern2b 14 = 3%Q ∧
  Pattern_at pattern2b (9 * 5) = 3%Q ∧
  Pattern_at pattern2b 15 ≠ 3%Q ∧
  Pattern_at pattern3 (-39) = 0%Q ∧
  Pattern_at pattern3 50 = 1%Q ∧
  Pattern_at pattern4 492 = 1%Q.
Proof. repeat split; try reflexivity. discriminate. Qed.

Lemma Pattern_at_sample :
  multipliers pattern2b !! 2%nat = Some (Pattern_at pattern2b (9 * 5)) ∧
  multipliers pattern3 !! 0%nat = Some (Pattern_at pattern3 50) ∧
  Pattern_at pattern3 (-39) = 0%Q ∧
  Pattern_at pattern4 492 = 1%Q.
Proof.
  split; [|split; [|split]].
  - exact (proj1 (Pattern_at_spec pattern2b (9 * 5)) eq_refl eq_refl).
  - apply (proj1 (proj2 (Pattern_at_spec pattern3 50))); [reflexivity|].
    split; [discriminate|reflexivity].
  - apply (proj1 (proj2 (proj2 (Pattern_at_spec pattern3 (-39)))));
      [reflexivity|reflexivity|].
    intros [H _]. apply H. reflexivity.
  - apply (proj2 (proj2 (proj2 (Pattern_at_spec pattern4 492)))).
    reflexivity.
Defined.

Lemma Pattern_wrap_law_sample :
  Pattern_at pattern2b 10 = Pattern_at pattern2b (10 + 7 * 5).
Proof. exact (Pattern_wrap_law pattern2b 10 eq_refl). Defined.

(** [test_Pattern], lines 81-83: the hand-written list and the generated
    square wave are equal. *)
Lemma BinaryPattern_equivalence_sample : Pattern_eq pattern5b pattern5a.
Proof.
  exact (BinaryPattern_equivalence "binary" "binary" 2 6 1 9 eq_refl).
Defined.

(** [test_TimeSeries], lines 95-96. *)
Lemma TimeSeries_init_validation_sample :
  TimeSeries_init (PyStr "A") PyNone None = ValueError ∧
  TimeSeries_init (PyNumber 1) (PyStr "A") None = ValueError ∧
  TimeSeries_init (PyNumber 2) PyNone None = Ok (mkTimeSeries 2 None None).
Proof.
  split; [|split].
  - apply (proj1 (TimeSeries_init_validation (PyStr "A") PyNone None)).
    left. intros [x Hx]. discriminate Hx.
  - apply (proj1 (TimeSeries_init_validation (PyNumber 1) (PyStr "A") None)).
    right. intros [Hn|[q Hq]]; discriminate.
  - reflexivity.
Defined.

(** [test_Demands], lines 183-185. *)
Lemma Demands_at_additive_sample :
  (Demands_at demandlist1 5 None == 305 # 100)%Q ∧
  (Demands_at demandlist1 13 None == 466 # 100)%Q ∧
  (Demands_at demandlist1 13 (Some "residential") == 216 # 100)%Q ∧
  Demands_at demandlist1 13 (Some "industrial") = 0%Q.
Proof.
  split; [|split; [|split]].
  - rewrite (proj1 (Demands_at_additive demandlist1 5 None)).
    vm_compute. reflexivity.
  - rewrite (proj1 (Demands_at_additive demandlist1 13 None)).
    vm_compute. reflexivity.
  - rewrite (proj1 (Demands_at_additive demandlist1 13 (Some "residential"))).
    vm_compute. reflexivity.
  - apply (proj2 (Demands_at_additive demandlist1 13 (Some "industrial"))).
    reflexivity.
Defined.

(** * Further properties of the water-security metrics *)

(** ** Contaminant consumed: errors, signs, detection limit *)

(** X1: [mass_contaminant_consumed] and [volume_contaminant_consumed] raise
    exactly when the 'demand' item is missing, the 'quality' item is missing,
    or the time axis has no entry at position 1. *)
Theorem contaminant_consumed_raises (p : Panel) (dl : Q) :
  (mass_contaminant_consumed p = None ↔
     items p !! "demand" = None ∨ items p !! "quality" = None ∨
     (length (major_axis p) < 2)%nat) ∧
  (volume_contaminant_consumed p dl = None ↔
     items p !! "demand" = None ∨ items p !! "quality" = None ∨
     (length (major_axis p) < 2)%nat).
Proof.
  assert (major_axis p !! 1%nat = None ↔ (length (major_axis p) < 2)%nat)
    as Hshort.
  { rewrite lookup_ge_None. lia. }
  unfold mass_contaminant_consumed, volume_contaminant_consumed,
    panel_getitem.
  destruct (items p !! "demand") as [d|], (items p !! "quality") as [q|];
    simpl.
  2-4: split; split; (intros _; auto) || done.
  destruct (major_axis p !! 1%nat) as [dt|] eqn:Hdt; simpl.
  - split; split; try done.
    all: intros [H|[H|H]]; try discriminate H.
    all: apply Hshort in H; discriminate H.
  - split; split; try done.
    all: intros _; right; right; by apply Hshort.
Qed.

Lemma mass_contaminant_consumed_inv p MC :
  mass_contaminant_consumed p = Some MC →
  ∃ demand quality dt,
    panel_getitem p "demand" = Some demand ∧
    panel_getitem p "quality" = Some quality ∧
    major_axis p !! 1%nat = Some dt ∧
    ∀ t n, iat MC t n =
      d ← iat demand t n; q ← iat quality t n;
      Some (d * dt * q * np.of_bool (np.greater d 0))%Q.
Proof.
  intros HMC. unfold mass_contaminant_consumed in HMC.
  destruct (panel_getitem p "demand") as [demand|] eqn:Hd; simplify_eq/=.
  destruct (panel_getitem p "quality") as [quality|] eqn:Hq; simplify_eq/=.
  destruct (index quality !! 1%nat) as [dt|] eqn:Hdt; simplify_eq/=.
  exists demand, quality, dt. split; [done|]. split; [done|]. split.
  { by rewrite <- (proj1 (panel_getitem_axes _ _ _ Hq)). }
  intros t n. rewrite !iat_df_zip, !iat_df_map.
  destruct (iat demand t n) as [d|]; simpl; [|done].
  by destruct (iat quality t n).
Qed.

Lemma volume_contaminant_consumed_inv p dl VC :
  volume_contaminant_consumed p dl = Some VC →
  ∃ demand quality dt,
    panel_getitem p "demand" = Some demand ∧
    panel_getitem p "quality" = Some quality ∧
    major_axis p !! 1%nat = Some dt ∧
    ∀ t n, iat VC t n =
      d ← iat demand t n; q ← iat quality t n;
      Some (d * dt * np.of_bool (np.greater q dl)
            * np.of_bool (np.greater d 0))%Q.
Proof.
  intros HVC. unfold volume_contaminant_consumed in HVC.
  destruct (panel_getitem p "quality") as [quality|] eqn:Hq; simplify_eq/=.
  destruct (panel_getitem p "demand") as [demand|] eqn:Hd; simplify_eq/=.
  destruct (index quality !! 1%nat) as [dt|] eqn:Hdt; simplify_eq/=.
  exists demand, quality, dt. split; [done|]. split; [done|]. split.
  { by rewrite <- (proj1 (panel_getitem_axes _ _ _ Hq)). }
  intros t n. rewrite !iat_df_zip, !iat_df_map.
  destruct (iat demand t n) as [d|]; simpl; [|done].
  by destruct (iat quality t n).
Qed.

(** X2: wherever the quality exceeds the detection limit, or is zero, the
    mass consumed is the volume consumed times the quality. *)
Theorem mass_is_volume_times_quality p dl MC VC quality (t n : nat) mc vc q :
  mass_contaminant_consumed p = Some MC →
  volume_contaminant_consumed p dl = Some VC →
  panel_getitem p "quality" = Some quality →
  iat MC t n = Some mc → iat VC t n = Some vc → iat quality t n = Some q →
  (dl < q)%Q ∨ (q == 0)%Q →
  (mc == vc * q)%Q.
Proof.
  intros HMC HVC Hq Hmc Hvc Hcq.
  destruct (mass_contaminant_consumed_inv _ _ HMC)
    as (demand & quality' & dt & Hd & Hq' & Hdt & HcM).
  destruct (volume_contaminant_consumed_inv _ _ _ HVC)
    as (demand' & quality'' & dt' & Hd' & Hq'' & Hdt' & HcV).
  rewrite Hq in Hq', Hq''. rewrite Hd in Hd'. rewrite Hdt in Hdt'.
  injection Hq' as <-. injection Hq'' as <-.
  injection Hd' as <-. injection Hdt' as <-.
  rewrite HcM in Hmc. rewrite HcV in Hvc.
  destruct (iat demand t n) as [d|]; simplify_eq/=.
  rewrite Hcq in Hmc, Hvc. simplify_eq/=.
  intros [Hgt|Hz].
  - apply greater_true in Hgt. rewrite Hgt. simpl. ring.
  - destruct (np.greater q dl); simpl; [ring|]. rewrite Hz. ring.
Qed.

Lemma volume_cell_nonneg p dl VC dt (t n : nat) vc :
  volume_contaminant_consumed p dl = Some VC →
  major_axis p !! 1%nat = Some dt → (0 <= dt)%Q →
  iat VC t n = Some vc → (0 <= vc)%Q.
Proof.
  intros HVC Hdt Hdt0 Hvc.
  destruct (volume_contaminant_consumed_inv _ _ _ HVC)
    as (demand & quality & dt' & _ & _ & Hdt' & HcV).
  rewrite Hdt in Hdt'. injection Hdt' as <-.
  rewrite HcV in Hvc.
  destruct (iat demand t n) as [d|]; simplify_eq/=.
  destruct (iat quality t n) as [q|]; simplify_eq/=.
  destruct (np.greater d 0) eqn:Ed; simpl; [|lra].
  apply greater_true in Ed.
  assert (0 <= d * dt)%Q by (apply Qmult_le_0_compat; lra).
  destruct (np.greater q dl); simpl; lra.
Qed.

Lemma mass_cell_nonneg p MC quality dt (t n : nat) mc :
  mass_contaminant_consumed p = Some MC →
  panel_getitem p "quality" = Some quality →
  major_axis p !! 1%nat = Some dt → (0 <= dt)%Q →
  (∀ q, iat quality t n = Some q → (0 <= q)%Q) →
  iat MC t n = Some mc → (0 <= mc)%Q.
Proof.
  intros HMC Hq Hdt Hdt0 Hq0 Hmc.
  destruct (mass_contaminant_consumed_inv _ _ HMC)
    as (demand & quality' & dt' & _ & Hq' & Hdt' & HcM).
  rewrite Hq in Hq'. injection Hq' as <-.
  rewrite Hdt in Hdt'. injection Hdt' as <-.
  rewrite HcM in Hmc.
  destruct (iat demand t n) as [d|]; simplify_eq/=.
  destruct (iat quality t n) as [q|]; simplify_eq/=.
  pose proof (Hq0 q eq_refl) as Hq1.
  destruct (np.greater d 0) eqn:Ed; simpl; [|lra].
  apply greater_true in Ed.
  assert (0 <= d * dt)%Q by (apply Qmult_le_0_compat; lra).
  assert (0 <= d * dt * q)%Q by (by apply Qmult_le_0_compat). lra.
Qed.

(** X3: with a non-negative time step no cell of the volume consumed is
    negative, and no cell of the mass consumed is negative where the quality
    is not. *)
Theorem contaminant_consumed_nonneg p dl MC VC quality dt :
  mass_contaminant_consumed p = Some MC →
  volume_contaminant_consumed p dl = Some VC →
  panel_getitem p "quality" = Some quality →
  major_axis p !! 1%nat = Some dt → (0 <= dt)%Q →
  (∀ (t n : nat) vc, iat VC t n = Some vc → (0 <= vc)%Q) ∧
  (∀ (t n : nat) mc q,
     iat MC t n = Some mc → iat quality t n = Some q → (0 <= q)%Q →
     (0 <= mc)%Q).
Proof.
  intros HMC HVC Hq Hdt Hdt0. split.
  - intros t n vc. by eapply volume_cell_nonneg.
  - intros t n mc q Hmc Hcq Hq0.
    eapply mass_cell_nonneg; try done.
    intros q'. rewrite Hcq. by intros [= <-].
Qed.

(** X4: with a non-negative time step, raising the detection limit never
    raises a cell of the volume consumed. *)
Theorem volume_antitone_in_detection_limit p dl1 dl2 VC1 VC2 dt
    (t n : nat) v1 v2 :
  volume_contaminant_consumed p dl1 = Some VC1 →
  volume_contaminant_consumed p dl2 = Some VC2 →
  major_axis p !! 1%nat = Some dt → (0 <= dt)%Q →
  (dl1 <= dl2)%Q →
  iat VC1 t n = Some v1 → iat VC2 t n = Some v2 →
  (v2 <= v1)%Q.
Proof.
  intros H1 H2 Hdt Hdt0 Hdl Hv1 Hv2.
  destruct (volume_contaminant_consumed_inv _ _ _ H1)
    as (demand & quality & dt' & Hd & Hq & Hdt' & Hc1).
  destruct (volume_contaminant_consumed_inv _ _ _ H2)
    as (demand' & quality' & dt'' & Hd' & Hq' & Hdt'' & Hc2).
  simplify_eq.
  rewrite Hc1 in Hv1. rewrite Hc2 in Hv2.
  destruct (iat demand t n) as [d|]; simplify_eq/=.
  destruct (iat quality t n) as [q|]; simplify_eq/=.
  destruct (np.greater d 0) eqn:Ed; simpl; [|lra].
  apply greater_true in Ed.
  assert (0 <= d * dt)%Q by (apply Qmult_le_0_compat; lra).
  destruct (np.greater q dl2) eqn:E2; simpl.
  - apply greater_true in E2.
    assert (np.greater q dl1 = true) as -> by (apply greater_true; lra).
    simpl. lra.
  - destruct (np.greater q dl1); simpl; lra.
Qed.

(** ** Cumulative totals *)

Lemma cumsum_from_steps xs acc (i : nat) a b :
  Forall (λ x, (0 <= x)%Q) xs →
  (acc :: cumsum_from acc xs) !! i = Some a →
  (acc :: cumsum_from acc xs) !! S i = Some b →
  (a <= b)%Q.
Proof.
  revert acc i a b.
  induction xs as [|x xs IH]; intros acc i a b Hpos Ha Hb.
  - destruct i; simplify_eq/=.
  - inversion Hpos as [|? ? Hx Hxs]; subst.
    destruct i as [|i]; simpl in Ha, Hb.
    + injection Ha as <-. injection Hb as <-. lra.
    + by apply (IH (acc + x)%Q i).
Qed.

Lemma cumsum_nondecreasing xs :
  Forall (λ x, (0 <= x)%Q) xs → nondecreasing (cumsum xs).
Proof.
  intros Hpos. apply nondecreasing_steps. intros i a b.
  destruct xs as [|x xs]; [done|].
  inversion Hpos; subst. by apply cumsum_from_steps.
Qed.

Lemma sum_nonneg xs : Forall (λ x, (0 <= x)%Q) xs → (0 <= np.sum xs)%Q.
Proof.
  induction 1 as [|x xs Hx _ IH]; simpl; [apply Qle_refl|lra].
Qed.

Lemma row_sums_nonneg (df : DataFrame Q) :
  (∀ (t n : nat) v, iat df t n = Some v → (0 <= v)%Q) →
  Forall (λ x, (0 <= x)%Q) (s_values (sum_axis1 df)).
Proof.
  intros Hcells. simpl. apply Forall_fmap, Forall_lookup.
  intros t row Hrow. simpl. apply sum_nonneg, Forall_lookup.
  intros n v Hv. apply (Hcells t n). unfold iat. by rewrite Hrow.
Qed.

(** X5: the cumulative volume consumed, [VC.sum(axis=1).cumsum()], never
    decreases when the time step is non-negative; neither does the
    cumulative mass consumed when, besides, no quality is negative. *)
Theorem cumulative_consumed_nondecreasing p dl MC VC quality dt :
  mass_contaminant_consumed p = Some MC →
  volume_contaminant_consumed p dl = Some VC →
  panel_getitem p "quality" = Some quality →
  major_axis p !! 1%nat = Some dt → (0 <= dt)%Q →
  nondecreasing (s_values (series_cumsum (sum_axis1 VC))) ∧
  ((∀ (t n : nat) q, iat quality t n = Some q → (0 <= q)%Q) →
   nondecreasing (s_values (series_cumsum (sum_axis1 MC)))).
Proof.
  intros HMC HVC Hq Hdt Hdt0. split.
  - apply cumsum_nondecreasing, row_sums_nonneg.
    intros t n v. by eapply volume_cell_nonneg.
  - intros Hq0. apply cumsum_nondecreasing, row_sums_nonneg.
    intros t n v. eapply mass_cell_nonneg; try done. apply Hq0.
Qed.

(** ** Extent of contamination: the direct method, bounds, detection limit *)

Lemma marked_direct_true lq dl (i m : nat) :
  marked (link_contam_direct lq dl) i m = true ↔
  ∃ (j : nat) q, (j ≤ i)%nat ∧ iat lq j m = Some q ∧ (dl < q)%Q.
Proof.
  rewrite marked_true. unfold link_contam_direct. split.
  - intros (j & Hj & H). rewrite iat_df_map in H.
    destruct (iat lq j m) as [q|] eqn:Hq; simplify_eq/=.
    exists j, q. split; [done|]. split; [done|]. by apply greater_true.
  - intros (j & q & Hj & Hq & Hgt). exists j. split; [done|].
    rewrite iat_df_map, Hq. simpl. f_equal. by apply greater_true.
Qed.

(** X6: on a rectangular link-quality table whose columns all have a
    non-negative length, [extent_contamination_direct] returns one value per
    time step, indexed like the table; the value at step [i] is the total
    length of the links whose quality exceeded the detection limit at some
    step [j <= i]. *)
Theorem extent_contamination_direct_spec lq ll dl :
  wf_frame lq →
  Forall (λ name, is_Some (ll !! name)) (columns lq) →
  map_Forall (λ _ l, (0 <= l)%Q) ll →
  ∃ ec,
    extent_contamination_direct lq ll dl = Some ec ∧
    s_index ec = index lq ∧
    length (s_values ec) = length (index lq) ∧
    (∀ i m : nat,
       marked (link_contam_direct lq dl) i m = true ↔
       ∃ (j : nat) q, (j ≤ i)%nat ∧ iat lq j m = Some q ∧ (dl < q)%Q) ∧
    (∀ i : nat, (i < length (index lq))%nat →
       ∃ v, s_values ec !! i = Some v ∧
         (v == marked_length (link_contam_direct lq dl) ll i)%Q).
Proof.
  intros Hwf Hll Hpos.
  rewrite extent_contamination_direct_unfold.
  destruct (extent_of_marks_is_Some (link_contam_direct lq dl) ll Hll)
    as [ec Hec].
  pose proof (link_contam_direct_rows lq dl Hwf) as Hrows.
  destruct Hwf as [Hlen _].
  exists ec. split; [done|]. split.
  { by destruct (extent_of_marks_inv _ _ _ Hec) as (_ & _ & -> & _). }
  split.
  { rewrite (extent_of_marks_length _ _ _ Hec). simpl.
    by rewrite length_map. }
  split; [apply marked_direct_true|].
  intros i Hi. apply extent_of_marks_value; [done..|].
  simpl. rewrite length_map. lia.
Qed.

Lemma length_default_nonneg (ll : gmap string Q) name :
  map_Forall (λ _ l, (0 <= l)%Q) ll → (0 <= default 0 (ll !! name))%Q.
Proof.
  intros Hpos. destruct (ll !! name) as [l|] eqn:E; simpl; [|apply Qle_refl].
  by apply (Hpos name).
Qed.

Lemma marked_length_bounds lc ll (i : nat) :
  map_Forall (λ _ l, (0 <= l)%Q) ll →
  (0 <= marked_length lc ll i)%Q ∧
  (marked_length lc ll i <= total_length (columns lc) ll)%Q.
Proof.
  intros Hpos. unfold marked_length, total_length. split.
  - apply sum_nonneg, Forall_lookup. intros m x.
    rewrite list_lookup_imap.
    destruct (columns lc !! m) as [name|]; [|done]. intros [= <-].
    destruct (marked lc i m); [by apply length_default_nonneg|apply Qle_refl].
  - apply sum_Qle, Forall2_same_length_lookup_2.
    + by rewrite length_imap, length_fmap.
    + intros m x y. rewrite list_lookup_imap, list_lookup_fmap.
      destruct (columns lc !! m) as [name|]; [|done].
      intros [= <-] [= <-].
      destruct (marked lc i m);
        [apply Qle_refl|by apply length_default_nonneg].
Qed.

Lemma marked_length_mono lc1 lc2 ll (i : nat) :
  map_Forall (λ _ l, (0 <= l)%Q) ll →
  columns lc1 = columns lc2 →
  (∀ m : nat, marked lc2 i m = true → marked lc1 i m = true) →
  (marked_length lc2 ll i <= marked_length lc1 ll i)%Q.
Proof.
  intros Hpos Hcols Hsub. unfold marked_length. rewrite Hcols.
  apply sum_Qle, Forall2_same_length_lookup_2.
  - by rewrite !length_imap.
  - intros m x y. rewrite !list_lookup_imap.
    destruct (columns lc2 !! m) as [name|]; [|done].
    intros [= <-] [= <-].
    destruct (marked lc2 i m) eqn:E2.
    + rewrite (Hsub m E2). apply Qle_refl.
    + destruct (marked lc1 i m);
        [by apply length_default_nonneg|apply Qle_refl].
Qed.

Lemma extent_of_marks_bounds lc ll ec (i : nat) v :
  Forall (λ brow, length brow = length (columns lc)) (values lc) →
  map_Forall (λ _ l, (0 <= l)%Q) ll →
  extent_of_marks lc ll = Some ec →
  s_values ec !! i = Some v →
  (0 <= v)%Q ∧ (v <= total_length (columns lc) ll)%Q.
Proof.
  intros Hrows Hpos Hec Hv.
  destruct (extent_of_marks_value lc ll ec i Hrows Hpos Hec)
    as (v' & Hv' & Heq).
  { rewrite <- (extent_of_marks_length _ _ _ Hec). by eapply lookup_lt_Some. }
  rewrite Hv in Hv'. injection Hv' as <-.
  destruct (marked_length_bounds lc ll i Hpos) as [Hlo Hhi].
  rewrite Heq. done.
Qed.

(** X7: with non-negative lengths every value returned by either extent
    method lies between 0 and the total length of the links of the table. *)
Theorem extent_contamination_bounds ll :
  map_Forall (λ _ l, (0 <= l)%Q) ll →
  (∀ nq fr names starts ends dl ec (i : nat) v,
     extent_contamination_indirect nq fr names starts ends ll dl = Some ec →
     s_values ec !! i = Some v →
     (0 <= v)%Q ∧ (v <= total_length names ll)%Q) ∧
  (∀ lq dl ec (i : nat) v,
     wf_frame lq →
     extent_contamination_direct lq ll dl = Some ec →
     s_values ec !! i = Some v →
     (0 <= v)%Q ∧ (v <= total_length (columns lq) ll)%Q).
Proof.
  intros Hpos. split.
  - intros nq fr names starts ends dl ec i v.
    rewrite extent_contamination_indirect_unfold. intros H Hv.
    destruct (link_contam_indirect _ _ _ _ _ _) as [lc|] eqn:Hlc;
      simplify_eq/=.
    destruct (link_contam_indirect_rows _ _ _ _ _ _ _ Hlc) as [_ Hrows].
    destruct (link_contam_indirect_inv _ _ _ _ _ _ _ Hlc)
      as (_ & _ & _ & _ & _ & _ & _ & Hcols & _).
    rewrite <- Hcols. by eapply extent_of_marks_bounds.
  - intros lq dl ec i v Hwf. rewrite extent_contamination_direct_unfold.
    intros Hec Hv.
    apply (extent_of_marks_bounds (link_contam_direct lq dl) ll ec i v);
      [by apply link_contam_direct_rows|done..].
Qed.

Lemma marked_mono lc1 lc2 (i m : nat) :
  (∀ j : nat, iat lc2 j m = Some true → iat lc1 j m = Some true) →
  marked lc2 i m = true → marked lc1 i m = true.
Proof.
  intros Hsub. rewrite !marked_true. intros (j & Hj & H).
  exists j. split; [done|]. by apply Hsub.
Qed.

Lemma extent_of_marks_mono lc1 lc2 ll e1 e2 (i : nat) v1 v2 :
  Forall (λ brow, length brow = length (columns lc1)) (values lc1) →
  Forall (λ brow, length brow = length (columns lc2)) (values lc2) →
  map_Forall (λ _ l, (0 <= l)%Q) ll →
  columns lc1 = columns lc2 →
  (∀ j m : nat, iat lc2 j m = Some true → iat lc1 j m = Some true) →
  extent_of_marks lc1 ll = Some e1 → extent_of_marks lc2 ll = Some e2 →
  s_values e1 !! i = Some v1 → s_values e2 !! i = Some v2 →
  (v2 <= v1)%Q.
Proof.
  intros Hr1 Hr2 Hpos Hcols Hsub He1 He2 Hv1 Hv2.
  destruct (extent_of_marks_value lc1 ll e1 i Hr1 Hpos He1) as (w1 & Hw1 & E1).
  { rewrite <- (extent_of_marks_length _ _ _ He1). by eapply lookup_lt_Some. }
  destruct (extent_of_marks_value lc2 ll e2 i Hr2 Hpos He2) as (w2 & Hw2 & E2).
  { rewrite <- (extent_of_marks_length _ _ _ He2). by eapply lookup_lt_Some. }
  rewrite Hv1 in Hw1. rewrite Hv2 in Hw2.
  injection Hw1 as <-. injection Hw2 as <-.
  rewrite E1, E2. apply marked_length_mono; [done..|].
  intros m. apply marked_mono. intros j. apply Hsub.
Qed.

(** X8: with non-negative lengths, raising the detection limit never raises
    a value of the extent of contamination, for either method. *)
Theorem extent_antitone_in_detection_limit ll dl1 dl2 :
  map_Forall (λ _ l, (0 <= l)%Q) ll →
  (dl1 <= dl2)%Q →
  (∀ nq fr names starts ends e1 e2 (i : nat) v1 v2,
     extent_contamination_indirect nq fr names starts ends ll dl1 = Some e1 →
     extent_contamination_indirect nq fr names starts ends ll dl2 = Some e2 →
     s_values e1 !! i = Some v1 → s_values e2 !! i = Some v2 →
     (v2 <= v1)%Q) ∧
  (∀ lq e1 e2 (i : nat) v1 v2,
     wf_frame lq →
     extent_contamination_direct lq ll dl1 = Some e1 →
     extent_contamination_direct lq ll dl2 = Some e2 →
     s_values e1 !! i = Some v1 → s_values e2 !! i = Some v2 →
     (v2 <= v1)%Q).
Proof.
  intros Hpos Hdl. split.
  - intros nq fr names starts ends e1 e2 i v1 v2.
    rewrite !extent_contamination_indirect_unfold. intros H1 H2 Hv1 Hv2.
    destruct (link_contam_indirect nq fr names starts ends dl1)
      as [lc1|] eqn:Hlc1; simplify_eq/=.
    destruct (link_contam_indirect nq fr names starts ends dl2)
      as [lc2|] eqn:Hlc2; simplify_eq/=.
    destruct (link_contam_indirect_rows _ _ _ _ _ _ _ Hlc1) as [_ Hr1].
    destruct (link_contam_indirect_rows _ _ _ _ _ _ _ Hlc2) as [_ Hr2].
    destruct (link_contam_indirect_inv _ _ _ _ _ _ _ Hlc1)
      as (frsel & nqs & nqe & Efr & Es & Ee & _ & Hc1 & _ & Hcell1).
    destruct (link_contam_indirect_inv _ _ _ _ _ _ _ Hlc2)
      as (frsel' & nqs' & nqe' & Efr' & Es' & Ee' & _ & Hc2 & _ & Hcell2).
    simplify_eq.
    eapply (extent_of_marks_mono lc1 lc2); try done.
    intros j m. rewrite Hcell1, Hcell2.
    destruct (iat frsel j m) as [f|]; simpl; [|done].
    destruct (iat nqs j m) as [qs|]; simpl; [|done].
    destruct (iat nqe j m) as [qe|]; simpl; [|done].
    intros [= H]. f_equal. apply link_mark_true.
    apply link_mark_true in H. destruct H as [[? ?]|[? ?]]; [left|right];
      split; lra.
  - intros lq e1 e2 i v1 v2 Hwf.
    rewrite !extent_contamination_direct_unfold. intros H1 H2 Hv1 Hv2.
    eapply (extent_of_marks_mono (link_contam_direct lq dl1)
              (link_contam_direct lq dl2)); try done;
      try (by apply link_contam_direct_rows).
    intros j m. unfold link_contam_direct. rewrite !iat_df_map.
    destruct (iat lq j m) as [q|]; simpl; [|done].
    intros [= H]. f_equal. apply greater_true. apply greater_true in H. lra.
Qed.

(** ** Extent of contamination: nothing to detect *)

Lemma cummax_from_zeros rows acc :
  Forall (λ x, (x == 0)%Q) acc →
  Forall (Forall (λ x, (x == 0)%Q)) rows →
  Forall (Forall (λ x, (x == 0)%Q)) (cummax_from acc rows).
Proof.
  intros Hacc Hrows. revert acc Hacc.
  induction Hrows as [|row rows Hrow _ IH]; intros acc Hacc; simpl.
  - constructor.
  - assert (Forall (λ x, (x == 0)%Q) (zip_with Qmax acc row)) as Hstep.
    { apply Forall_lookup. intros m x Hx.
      apply lookup_zip_with_Some in Hx as (a & b & -> & Ha & Hb).
      rewrite (proj1 (Forall_lookup _ _) Hacc m a Ha).
      rewrite (proj1 (Forall_lookup _ _) Hrow m b Hb).
      apply Q.max_id. }
    constructor; [exact Hstep|]. by apply IH.
Qed.

Lemma cummax_zeros rows :
  Forall (Forall (λ x, (x == 0)%Q)) rows →
  Forall (Forall (λ x, (x == 0)%Q)) (cummax rows).
Proof.
  intros Hrows. destruct rows as [|row rows]; simpl; [constructor|].
  inversion Hrows; subst. constructor; [done|]. by apply cummax_from_zeros.
Qed.

(** A table without a single mark has extent 0 throughout, whatever the
    lengths. *)
Lemma extent_of_marks_no_marks lc ll ec :
  (∀ (j m : nat) b, iat lc j m = Some b → b = false) →
  extent_of_marks lc ll = Some ec →
  Forall (λ v, (v == 0)%Q) (s_values ec).
Proof.
  intros Hno Hec.
  destruct (extent_of_marks_inv _ _ _ Hec) as (F & _ & _ & ->).
  apply Forall_fmap.
  eapply Forall_impl; [apply cummax_zeros|].
  - apply Forall_fmap, Forall_lookup. intros j brow Hbrow. simpl.
    apply Forall_lookup. intros m x Hx. unfold scale in Hx.
    apply lookup_zip_with_Some in Hx as (b & l & -> & Hb & _).
    rewrite (Hno j m b); [simpl; ring|].
    unfold iat. by rewrite Hbrow.
  - intros row Hrow. simpl. by apply sum_zeros.
Qed.

Lemma loc_columns_cell_from {A} (df r : DataFrame A) labels (i m : nat) x :
  loc_columns df labels = Some r → iat r i m = Some x →
  ∃ p : nat, iat df i p = Some x.
Proof.
  unfold loc_columns. intros H Hx.
  destruct (mapM (get_loc df) labels) as [ps|] eqn:Eps; simplify_eq/=.
  destruct (mapM _ (values df)) as [rows|] eqn:Erows; simplify_eq/=.
  apply mapM_Some in Erows. unfold iat in *; simpl in Hx.
  destruct (rows !! i) as [row'|] eqn:Ei; simplify_eq/=.
  destruct (Forall2_lookup_r _ _ _ _ _ Erows Ei) as (row & Hrow & Hsel).
  apply mapM_Some in Hsel.
  destruct (Forall2_lookup_r _ _ _ _ _ Hsel Hx) as (p & _ & Hp).
  exists p. by rewrite Hrow.
Qed.

Lemma link_mark_no_flow dl f qs qe : (f == 0)%Q → link_mark dl f qs qe = false.
Proof.
  intros Hf. apply not_true_is_false. rewrite link_mark_true.
  intros [[H _]|[H _]]; lra.
Qed.

Lemma link_mark_below dl f qs qe :
  (qs <= dl)%Q → (qe <= dl)%Q → link_mark dl f qs qe = false.
Proof.
  intros Hs He. apply not_true_is_false. rewrite link_mark_true.
  intros [[_ H]|[_ H]]; lra.
Qed.

(** X9: when no water moves (every cell of the flow table is zero) the
    indirect method returns 0 at every time step, whatever the node
    qualities and the lengths. *)
Theorem extent_contamination_indirect_no_flow
    nq fr names starts ends ll dl ec :
  Forall (Forall (λ f, (f == 0)%Q)) (values fr) →
  extent_contamination_indirect nq fr names starts ends ll dl = Some ec →
  Forall (λ v, (v == 0)%Q) (s_values ec).
Proof.
  intros Hzero. rewrite extent_contamination_indirect_unfold. intros H.
  destruct (link_contam_indirect _ _ _ _ _ _) as [lc|] eqn:Hlc; simplify_eq/=.
  destruct (link_contam_indirect_inv _ _ _ _ _ _ _ Hlc)
    as (frsel & nqs & nqe & Efr & _ & _ & _ & _ & _ & Hcell).
  apply (extent_of_marks_no_marks lc ll); [|done].
  intros j m b. rewrite Hcell.
  destruct (iat frsel j m) as [f|] eqn:Hf; simpl; [|done].
  destruct (iat nqs j m) as [qs|]; simpl; [|done].
  destruct (iat nqe j m) as [qe|]; simpl; [|done].
  intros [= <-]. apply link_mark_no_flow.
  destruct (loc_columns_cell_from _ _ _ _ _ _ Efr Hf) as (p & Hp).
  unfold iat in Hp. destruct (values fr !! j) as [row|] eqn:Hrow;
    simplify_eq/=.
  exact (proj1 (Forall_lookup _ _)
           (proj1 (Forall_lookup _ _) Hzero j row Hrow) p f Hp).
Qed.

(** X10: when no quality in the table exceeds the detection limit, either
    extent method returns 0 at every time step, whatever the flows and the
    lengths. *)
Theorem extent_contamination_nothing_detected ll dl :
  (∀ nq fr names starts ends ec,
     Forall (Forall (λ q, (q <= dl)%Q)) (values nq) →
     extent_contamination_indirect nq fr names starts ends ll dl = Some ec →
     Forall (λ v, (v == 0)%Q) (s_values ec)) ∧
  (∀ lq ec,
     Forall (Forall (λ q, (q <= dl)%Q)) (values lq) →
     extent_contamination_direct lq ll dl = Some ec →
     Forall (λ v, (v == 0)%Q) (s_values ec)).
Proof.
  assert (∀ (df : DataFrame Q) (j p : nat) q,
            Forall (Forall (λ q, (q <= dl)%Q)) (values df) →
            iat df j p = Some q → (q <= dl)%Q) as Hcellle.
  { intros df j p q Hall Hq. unfold iat in Hq.
    destruct (values df !! j) as [row|] eqn:Hrow; simplify_eq/=.
    exact (proj1 (Forall_lookup _ _)
             (proj1 (Forall_lookup _ _) Hall j row Hrow) p q Hq). }
  split.
  - intros nq fr names starts ends ec Hall.
    rewrite extent_contamination_indirect_unfold. intros H.
    destruct (link_contam_indirect _ _ _ _ _ _) as [lc|] eqn:Hlc;
      simplify_eq/=.
    destruct (link_contam_indirect_inv _ _ _ _ _ _ _ Hlc)
      as (frsel & nqs & nqe & _ & Es & Ee & _ & _ & _ & Hcell).
    apply (extent_of_marks_no_marks lc ll); [|done].
    intros j m b. rewrite Hcell.
    destruct (iat frsel j m) as [f|]; simpl; [|done].
    destruct (iat nqs j m) as [qs|] eqn:Hqs; simpl; [|done].
    destruct (iat nqe j m) as [qe|] eqn:Hqe; simpl; [|done].
    intros [= <-].
    destruct (loc_columns_cell_from _ _ _ _ _ _ Es Hqs) as (p & Hp).
    destruct (loc_columns_cell_from _ _ _ _ _ _ Ee Hqe) as (p' & Hp').
    apply link_mark_below; by eapply Hcellle.
  - intros lq ec Hall. rewrite extent_contamination_direct_unfold.
    apply extent_of_marks_no_marks.
    intros j m b. unfold link_contam_direct. rewrite iat_df_map.
    destruct (iat lq j m) as [q|] eqn:Hq; simpl; [|done].
    intros [= <-]. apply greater_false. by eapply Hcellle.
Qed.

(** ** Extent of contamination: orientation of the links *)

Lemma df_map_compose {A B C} (f : A → B) (g : B → C) (df : DataFrame A) :
  df_map g (df_map f df) = df_map (λ x, g (f x)) df.
Proof.
  unfold df_map; simpl. f_equal.
  rewrite map_map. apply map_ext. intros row. apply map_map.
Qed.

Lemma df_map_ext {A B} (f g : A → B) (df : DataFrame A) :
  (∀ x, f x = g x) → df_map f df = df_map g df.
Proof.
  intros Hfg. unfold df_map. f_equal.
  apply map_ext. intros row. by apply map_ext.
Qed.

Lemma sign_opp_positive f :
  np.greater (np.sign (- f)) 0 = np.less (np.sign f) 0.
Proof.
  apply eq_true_iff_eq. rewrite sign_positive, sign_negative.
  split; intros H; lra.
Qed.

Lemma sign_opp_negative f :
  np.less (np.sign (- f)) 0 = np.greater (np.sign f) 0.
Proof.
  apply eq_true_iff_eq. rewrite sign_positive, sign_negative.
  split; intros H; lra.
Qed.

Lemma zip_with_orb_comm (a b : list (list bool)) :
  zip_with (zip_with orb) a b = zip_with (zip_with orb) b a.
Proof.
  revert b. induction a as [|ra a IH]; intros [|rb b]; simpl; try done.
  f_equal; [|apply IH].
  clear. revert rb. induction ra as [|x ra IH]; intros [|y rb]; simpl;
    try done.
  f_equal; [apply orb_comm|apply IH].
Qed.

Lemma link_contam_indirect_reversed nq fr names starts ends dl :
  link_contam_indirect nq (df_map Qopp fr) names ends starts dl =
  link_contam_indirect nq fr names starts ends dl.
Proof.
  unfold link_contam_indirect. rewrite (loc_columns_df_map Qopp fr names).
  destruct (loc_columns fr names) as [frsel|]; simpl; [|done].
  rewrite !(df_map_compose Qopp np.sign), !df_map_compose.
  rewrite (df_map_ext (λ x, np.greater (np.sign (- x)) 0)
             (λ x, np.less (np.sign x) 0)) by apply sign_opp_positive.
  rewrite (df_map_ext (λ x, np.less (np.sign (- x)) 0)
             (λ x, np.greater (np.sign x) 0)) by apply sign_opp_negative.
  destruct (loc_columns (df_map (λ q, np.greater q dl) nq) starts) as [ps|],
    (loc_columns (df_map (λ q, np.greater q dl) nq) ends) as [pe|];
    simpl; try done.
  destruct (df_zip_array andb (df_map (λ x, np.less (np.sign x) 0) frsel)
              (values pe)) as [up|] eqn:Eup,
    (df_zip_array andb (df_map (λ x, np.greater (np.sign x) 0) frsel)
       (values ps)) as [down|] eqn:Edown; simpl; try done.
  destruct (df_zip_array_axes _ _ _ _ Eup) as (Hui & Huc & _ & _).
  destruct (df_zip_array_axes _ _ _ _ Edown) as (Hdi & Hdc & _ & _).
  unfold df_zip. f_equal. f_equal.
  - by rewrite Hui, Hdi.
  - by rewrite Huc, Hdc.
  - apply zip_with_orb_comm.
Qed.

(** X11: reversing the orientation of every link (its start and end nodes
    swapped, its flows negated) does not change what
    [extent_contamination_indirect] returns. *)
Theorem extent_contamination_indirect_reversed
    nq fr names starts ends ll dl :
  extent_contamination_indirect nq (df_map Qopp fr) names ends starts ll dl =
  extent_contamination_indirect nq fr names starts ends ll dl.
Proof.
  rewrite !extent_contamination_indirect_unfold.
  by rewrite link_contam_indirect_reversed.
Qed.

(** ** Extent of contamination: only the past matters *)

Lemma cummax_from_take (n : nat) rows acc :
  cummax_from acc (take n rows) = take n (cummax_from acc rows).
Proof.
  revert n acc. induction rows as [|row rows IH]; intros [|n] acc; simpl;
    try done.
  by rewrite IH.
Qed.

Lemma cummax_take (n : nat) rows :
  cummax (take n rows) = take n (cummax rows).
Proof.
  destruct n, rows; simpl; try done. by rewrite cummax_from_take.
Qed.

Lemma df_map_head_rows {A B} (f : A → B) (n : nat) (df : DataFrame A) :
  df_map f (head_rows n df) = head_rows n (df_map f df).
Proof.
  unfold df_map, head_rows; simpl. f_equal.
  apply (fmap_take (map f)).
Qed.

Lemma extent_of_marks_head_rows (n : nat) lc ll :
  extent_of_marks (head_rows n lc) ll =
  head_series n <$> extent_of_marks lc ll.
Proof.
  unfold extent_of_marks, df_mul_series; simpl.
  destruct (mapM (ll !!.) (columns lc)) as [F|]; simpl; [|done].
  unfold sum_axis1, df_cummax, head_series; simpl.
  by rewrite fmap_take, cummax_take, fmap_take.
Qed.

Lemma mapM_take {A B} (f : A → option B) (n : nat) l k :
  mapM f l = Some k → mapM f (take n l) = Some (take n k).
Proof.
  rewrite !mapM_Some. apply Forall2_take.
Qed.

Lemma loc_columns_head_rows {A} (n : nat) (df r : DataFrame A) labels :
  loc_columns df labels = Some r →
  loc_columns (head_rows n df) labels = Some (head_rows n r).
Proof.
  unfold loc_columns.
  change (get_loc (head_rows n df)) with (get_loc df).
  destruct (mapM (get_loc df) labels) as [ps|]; simpl; [|done].
  destruct (mapM _ (values df)) as [rows|] eqn:Erows; simpl; [|done].
  intros [= <-]. by rewrite (mapM_take _ n _ _ Erows).
Qed.

Lemma df_zip_array_head_rows {A B C} (f : A → B → C) (n : nat)
    (a : DataFrame A) b r :
  df_zip_array f a b = Some r →
  df_zip_array f (head_rows n a) (take n b) = Some (head_rows n r).
Proof.
  unfold df_zip_array. case_decide as Hs; [|done]. intros [= <-].
  rewrite decide_True.
  - unfold head_rows; simpl. by rewrite zip_with_take.
  - unfold shape in *. simpl. by rewrite !fmap_take, Hs.
Qed.

Lemma link_contam_indirect_head_rows (n : nat) nq fr names starts ends dl lc :
  link_contam_indirect nq fr names starts ends dl = Some lc →
  link_contam_indirect (head_rows n nq) (head_rows n fr)
    names starts ends dl = Some (head_rows n lc).
Proof.
  unfold link_contam_indirect. rewrite !df_map_head_rows. intros H.
  destruct (loc_columns fr names) as [frsel|] eqn:Efr; simplify_eq/=.
  destruct (loc_columns (df_map _ nq) starts) as [ps|] eqn:Es; simplify_eq/=.
  destruct (loc_columns (df_map _ nq) ends) as [pe|] eqn:Ee; simplify_eq/=.
  destruct (df_zip_array andb
              (df_map (λ d, np.greater d 0) (df_map np.sign frsel))
              (values ps)) as [down|] eqn:Edown; simplify_eq/=.
  destruct (df_zip_array andb
              (df_map (λ d, np.less d 0) (df_map np.sign frsel))
              (values pe)) as [up|] eqn:Eup; simplify_eq/=.
  rewrite (loc_columns_head_rows n _ _ _ Efr); simpl.
  rewrite (loc_columns_head_rows n _ _ _ Es); simpl.
  rewrite (loc_columns_head_rows n _ _ _ Ee); simpl.
  rewrite !df_map_head_rows.
  rewrite (df_zip_array_head_rows _ n _ _ _ Edown); simpl.
  rewrite (df_zip_array_head_rows _ n _ _ _ Eup); simpl.
  unfold df_zip, head_rows; simpl. by rewrite zip_with_take.
Qed.

(** X12: the extent at a time step depends on the table rows up to that
    step only.  Running either method on the first [n] time steps returns
    the first [n] values of the full run. *)
Theorem extent_contamination_prefix (n : nat) ll dl :
  (∀ nq fr names starts ends ec,
     extent_contamination_indirect nq fr names starts ends ll dl = Some ec →
     extent_contamination_indirect (head_rows n nq) (head_rows n fr)
       names starts ends ll dl = Some (head_series n ec)) ∧
  (∀ lq,
     extent_contamination_direct (head_rows n lq) ll dl =
     head_series n <$> extent_contamination_direct lq ll dl).
Proof.
  split.
  - intros nq fr names starts ends ec.
    rewrite !extent_contamination_indirect_unfold. intros H.
    destruct (link_contam_indirect nq fr names starts ends dl)
      as [lc|] eqn:Hlc; simplify_eq/=.
    rewrite (link_contam_indirect_head_rows n _ _ _ _ _ _ _ Hlc); simpl.
    by rewrite extent_of_marks_head_rows, H.
  - intros lq. rewrite !extent_contamination_direct_unfold.
    unfold link_contam_direct. rewrite df_map_head_rows.
    apply extent_of_marks_head_rows.
Qed.

(** ** The further properties on the sample data *)

Lemma mass_is_volume_times_quality_sample :
  ∃ MC VC mc vc,
    mass_contaminant_consumed sample_node_results = Some MC ∧
    volume_contaminant_consumed sample_node_results 0 = Some VC ∧
    iat MC 2 1 = Some mc ∧ iat VC 2 1 = Some vc ∧ (mc == vc * 2)%Q.
Proof.
  eexists _, _, _, _.
  split; [reflexivity|]. split; [reflexivity|].
  split; [reflexivity|]. split; [reflexivity|].
  eapply (mass_is_volume_times_quality sample_node_results 0 _ _
            sample_quality 2 1); try reflexivity.
  left. reflexivity.
Defined.

Lemma contaminant_consumed_nonneg_sample :
  ∃ MC VC,
    mass_contaminant_consumed sample_node_results = Some MC ∧
    volume_contaminant_consumed sample_node_results 0 = Some VC ∧
    (∀ (t n : nat) vc, iat VC t n = Some vc → (0 <= vc)%Q) ∧
    (∀ mc, iat MC 2 0 = Some mc → (0 <= mc)%Q).
Proof.
  eexists _, _.
  split; [reflexivity|]. split; [reflexivity|].
  destruct (contaminant_consumed_nonneg sample_node_results 0 _ _
              sample_quality 10 eq_refl eq_refl eq_refl eq_refl)
    as [HV HM]; [discriminate|].
  split; [exact HV|].
  intros mc Hmc. apply (HM 2%nat 0%nat mc 2%Q Hmc eq_refl). discriminate.
Defined.

Lemma volume_antitone_in_detection_limit_sample :
  ∃ VC1 VC2 v1 v2,
    volume_contaminant_consumed sample_node_results 0 = Some VC1 ∧
    volume_contaminant_consumed sample_node_results 3 = Some VC2 ∧
    iat VC1 2 1 = Some v1 ∧ iat VC2 2 1 = Some v2 ∧ (v2 <= v1)%Q.
Proof.
  eexists _, _, _, _.
  split; [reflexivity|]. split; [reflexivity|].
  split; [reflexivity|]. split; [reflexivity|].
  eapply (volume_antitone_in_detection_limit sample_node_results 0 3 _ _ 10
            2 1); try reflexivity; discriminate.
Defined.

Lemma cumulative_consumed_nondecreasing_sample :
  ∃ MC VC,
    mass_contaminant_consumed sample_node_results = Some MC ∧
    volume_contaminant_consumed sample_node_results 0 = Some VC ∧
    nondecreasing (s_values (series_cumsum (sum_axis1 VC))) ∧
    nondecreasing (s_values (series_cumsum (sum_axis1 MC))).
Proof.
  eexists _, _.
  split; [reflexivity|]. split; [reflexivity|].
  destruct (cumulative_consumed_nondecreasing sample_node_results 0 _ _
              sample_quality 10 eq_refl eq_refl eq_refl eq_refl)
    as [HV HM]; [discriminate|].
  split; [exact HV|]. apply HM.
  intros t n q Hq. unfold iat in Hq. simpl in Hq.
  destruct t as [|[|[|t]]]; simpl in Hq; try discriminate Hq;
    destruct n as [|[|n]]; simpl in Hq; try discriminate Hq;
    injection Hq as <-; discriminate.
Defined.

Lemma sample_link_quality_lengths :
  Forall (λ name, is_Some (sample_link_length !! name))
    (columns sample_link_quality).
Proof. repeat constructor; vm_compute; eauto. Defined.

Lemma extent_contamination_direct_sample :
  ∃ ec,
    extent_contamination_direct sample_link_quality sample_link_length 0
      = Some ec ∧
    ∃ v, s_values ec !! 2%nat = Some v ∧ (v == 150)%Q.
Proof.
  destruct (extent_contamination_direct_spec sample_link_quality
              sample_link_length 0 sample_link_quality_wf
              sample_link_quality_lengths sample_lengths_nonneg)
    as (ec & Hec & _ & _ & _ & Hval).
  exists ec. split; [exact Hec|].
  destruct (Hval 2%nat) as (v & Hv & Hveq); [simpl; lia|].
  exists v. split; [exact Hv|]. rewrite Hveq. vm_compute. reflexivity.
Defined.

Lemma extent_contamination_bounds_sample :
  ∃ ec v,
    extent_contamination_direct sample_link_quality sample_link_length 0
      = Some ec ∧
    s_values ec !! 1%nat = Some v ∧ (0 <= v)%Q ∧ (v <= 150)%Q.
Proof.
  eexists _, _.
  split; [reflexivity|]. split; [reflexivity|].
  destruct (extent_contamination_bounds sample_link_length
              sample_lengths_nonneg) as [_ Hd].
  destruct (Hd sample_link_quality 0%Q _ 1%nat _ sample_link_quality_wf
              eq_refl eq_refl) as [Hlo Hhi].
  split; [exact Hlo|]. vm_compute in Hhi. exact Hhi.
Defined.

Lemma extent_antitone_in_detection_limit_sample :
  ∃ e1 e2 v1 v2,
    extent_contamination_direct sample_link_quality sample_link_length 0
      = Some e1 ∧
    extent_contamination_direct sample_link_quality sample_link_length 2
      = Some e2 ∧
    s_values e1 !! 2%nat = Some v1 ∧ s_values e2 !! 2%nat = Some v2 ∧
    (v2 <= v1)%Q.
Proof.
  eexists _, _, _, _.
  split; [reflexivity|]. split; [reflexivity|].
  split; [reflexivity|]. split; [reflexivity|].
  destruct (extent_antitone_in_detection_limit sample_link_length 0 2
              sample_lengths_nonneg) as [_ Hd]; [discriminate|].
  eapply (Hd sample_link_quality _ _ 2%nat _ _ sample_link_quality_wf);
    reflexivity.
Defined.

Lemma extent_contamination_indirect_no_flow_sample :
  ∃ ec,
    extent_contamination_indirect sample_node_quality
      (df_map (λ _, 0%Q) sample_flow_rate)
      sample_link_names sample_link_start sample_link_end
      sample_link_length 0 = Some ec ∧
    Forall (λ v, (v == 0)%Q) (s_values ec).
Proof.
  destruct (extent_contamination_indirect sample_node_quality
              (df_map (λ _, 0%Q) sample_flow_rate)
              sample_link_names sample_link_start sample_link_end
              sample_link_length 0) as [ec|] eqn:E.
  - exists ec. split; [reflexivity|].
    eapply (extent_contamination_indirect_no_flow sample_node_quality
              (df_map (λ _, 0%Q) sample_flow_rate)); [|exact E].
    repeat constructor.
  - vm_compute in E. discriminate E.
Defined.

Lemma extent_contamination_nothing_detected_sample :
  ∃ ec,
    extent_contamination_direct sample_link_quality sample_link_length 3
      = Some ec ∧
    Forall (λ v, (v == 0)%Q) (s_values ec).
Proof.
  destruct (extent_contamination_direct sample_link_quality
              sample_link_length 3) as [ec|] eqn:E.
  - exists ec. split; [reflexivity|].
    eapply (proj2 (extent_contamination_nothing_detected sample_link_length 3)
              sample_link_quality); [|exact E].
    repeat constructor; discriminate.
  - vm_compute in E. discriminate E.
Defined.

Lemma extent_contamination_prefix_sample :
  ∃ ec,
    extent_contamination_indirect sample_node_quality sample_flow_rate
      sample_link_names sample_link_start sample_link_end
      sample_link_length 0 = Some ec ∧
    extent_contamination_indirect
      (head_rows 2 sample_node_quality) (head_rows 2 sample_flow_rate)
      sample_link_names sample_link_start sample_link_end
      sample_link_length 0 = Some (head_series 2 ec).
Proof.
  destruct (extent_contamination_indirect sample_node_quality
              sample_flow_rate sample_link_names sample_link_start
              sample_link_end sample_link_length 0) as [ec|] eqn:E.
  - exists ec. split; [reflexivity|].
    apply (proj1 (extent_contamination_prefix 2 sample_link_length 0)).
    exact E.
  - vm_compute in E. discriminate E.
Defined.
